(** * threads_analytics: the Threads API client and the credential store

    A shallow embedding of [src/threads_api/client.py] (class
    [ThreadsAPIClient]) and [src/utils/crypto_utils.py] (class
    [CryptoManager]), and the properties of both that the specification
    states.

    Conventions of the embedding.
    - A Python value that comes out of [response.json()] is a [json] term; the
      operations Python applies to it ([x.get], [len], iteration, truth value,
      subscripting) are the functions of module [Py], each raising the
      exception Python raises on a value of the wrong type.
    - A method that may raise runs in the monad [M]: it takes the state of the
      client and of its environment and returns an exception or a value,
      with the new state. [try ... except] is [try_except].
    - The network is a function [server] from the requests issued so far and
      the current request to the outcome of [requests.get].
    - Time is counted in milliseconds, so that the delay of 0.5 s between
      requests is an integer. *)

From Stdlib Require Import ZArith Lia Ascii.
From stdpp Require Import gmap strings list fin_maps.

Local Open Scope string_scope.
Local Open Scope Z_scope.
Local Set Warnings "-register-all,-clear-no-such-hyp".

(** ** Python values and exceptions *)

Module Py.

(** The values [json.loads] and [response.json()] produce. Numbers are
    integers (the metrics are counts). An object lists its members in order,
    each key once, as a Python [dict] does. *)
Inductive json : Type :=
| JNull
| JBool (b : bool)
| JNum (n : Z)
| JStr (s : string)
| JArr (items : list json)
| JObj (members : list (string * json)).

(** The exceptions the two classes meet. [CryptoError] is the one exception
    class [crypto_utils.py] declares; [InvalidToken] is Fernet's. *)
Inductive exn : Type :=
| HTTPError (status : Z)
| RequestException (reason : string)
| JSONDecodeError
| UnicodeDecodeError
| AttributeError
| TypeError
| KeyError
| IndexError
| FileNotFoundError
| InvalidToken
| CryptoError (message : string).

(** [isinstance(e, requests.exceptions.RequestException)] *)
Definition is_request_exception (e : exn) : bool :=
  match e with
  | HTTPError _ | RequestException _ => true
  | _ => false
  end.

(** Computations that return or raise. *)
Definition result (A : Type) : Type := exn + A.

Definition rbind {A B} (m : result A) (k : A -> result B) : result B :=
  match m with
  | inl e => inl e
  | inr a => k a
  end.

(** [bool(v)] *)
Definition truthy (v : json) : bool :=
  match v with
  | JNull => false
  | JBool b => b
  | JNum n => negb (n =? 0)
  | JStr s => negb (String.eqb s EmptyString)
  | JArr items => match items with [] => false | _ => true end
  | JObj members => match members with [] => false | _ => true end
  end.

(** [d[k]] on the members of a [dict] *)
Fixpoint lookup_member (k : string) (members : list (string * json)) : option json :=
  match members with
  | [] => None
  | (k', v) :: rest => if String.eqb k' k then Some v else lookup_member k rest
  end.

(** [v.get(k, default)]: only a [dict] has the method. *)
Definition get (v : json) (k : string) (dflt : json) : result json :=
  match v with
  | JObj members => inr (default dflt (lookup_member k members))
  | _ => inl AttributeError
  end.

(** [v[k]] for a string [k]: a [dict] gives the member or [KeyError]; a list
    or a string takes integer indices only; nothing else is subscriptable. *)
Definition getitem (v : json) (k : string) : result json :=
  match v with
  | JObj members =>
      match lookup_member k members with
      | Some x => inr x
      | None => inl KeyError
      end
  | _ => inl TypeError
  end.

(** The characters of a string, as Python yields them when it iterates. *)
Fixpoint chars (s : string) : list json :=
  match s with
  | EmptyString => []
  | String c rest => JStr (String c EmptyString) :: chars rest
  end.

(** [v[0]]: the first item of a list, the first character of a string;
    a [dict] decoded from JSON has string keys only, so [0] is not among
    them. *)
Definition first (v : json) : result json :=
  match v with
  | JArr (x :: _) => inr x
  | JArr [] => inl IndexError
  | JStr s => match chars s with x :: _ => inr x | [] => inl IndexError end
  | JObj _ => inl KeyError
  | _ => inl TypeError
  end.

(** [len(v)] *)
Definition len (v : json) : result Z :=
  match v with
  | JStr s => inr (Z.of_nat (String.length s))
  | JArr items => inr (Z.of_nat (length items))
  | JObj members => inr (Z.of_nat (length members))
  | _ => inl TypeError
  end.

(** [iter(v)]: what [for x in v] and [list.extend(v)] run through. *)
Definition iterate (v : json) : result (list json) :=
  match v with
  | JArr items => inr items
  | JStr s => inr (chars s)
  | JObj members => inr (map (fun kv => JStr (fst kv)) members)
  | _ => inl TypeError
  end.

(** Does [sub] occur in [s]? *)
Fixpoint substring_of (sub s : string) : bool :=
  String.prefix sub s ||
  match s with
  | EmptyString => false
  | String _ rest => substring_of sub rest
  end.

Definition json_is_str (k : string) (v : json) : bool :=
  match v with
  | JStr s => String.eqb s k
  | _ => false
  end.

(** [k in v] for a string [k]: a key of a [dict], an item of a list, a
    substring of a string. *)
Definition contains (v : json) (k : string) : result bool :=
  match v with
  | JObj members => inr (bool_decide (is_Some (lookup_member k members)))
  | JArr items => inr (existsb (json_is_str k) items)
  | JStr s => inr (substring_of k s)
  | _ => inl TypeError
  end.

(** [s.split(sep)[-1]] for a non-empty [sep]: what follows the last of the
    occurrences of [sep] that a scan from the left finds. [skip] counts the
    characters of the occurrence being stepped over, [seg] is the segment
    read since the last occurrence. *)
Fixpoint split_last_from (sep s : string) (skip : nat) (seg : string) : string :=
  match s with
  | EmptyString => seg
  | String c rest =>
      match skip with
      | S n => split_last_from sep rest n seg
      | O =>
          if String.prefix sep s
          then split_last_from sep rest (String.length sep - 1)%nat EmptyString
          else split_last_from sep rest 0 (seg +:+ String c EmptyString)
      end
  end.

Definition split_last (sep s : string) : string := split_last_from sep s 0 EmptyString.

(** [sep.join(parts)] *)
Definition join (sep : string) (parts : list string) : string :=
  String.concat sep parts.

End Py.

(** ** The keys of a metrics bundle *)

Module Bundle.
Import Py.

(** What Python hashes a JSON scalar to when it is used as a [dict] key:
    [True] and [False] are the keys [1] and [0]. *)
Inductive hashable : Type :=
| HStr (s : string)
| HInt (n : Z)
| HNone.

#[global] Instance hashable_eq_dec : EqDecision hashable.
Proof. solve_decision. Defined.

Definition hashable_encode (k : hashable) : string + (Z + unit) :=
  match k with
  | HStr s => inl s
  | HInt n => inr (inl n)
  | HNone => inr (inr tt)
  end.

Definition hashable_decode (x : string + (Z + unit)) : hashable :=
  match x with
  | inl s => HStr s
  | inr (inl n) => HInt n
  | inr (inr _) => HNone
  end.

#[global] Instance hashable_countable : Countable hashable.
Proof.
  refine (inj_countable' hashable_encode hashable_decode _).
  intros []; reflexivity.
Defined.

(** [hash(v)]: lists and dictionaries are unhashable. *)
Definition hash_key (v : json) : result hashable :=
  match v with
  | JStr s => inr (HStr s)
  | JNum n => inr (HInt n)
  | JBool b => inr (HInt (if b then 1 else 0))
  | JNull => inr HNone
  | JArr _ | JObj _ => inl TypeError
  end.

End Bundle.

(** A metrics bundle: the [dict] from metric name to value. *)
Abbreviation bundle := (gmap Bundle.hashable Py.json).

(** ** The state monad of the client *)

Module Monad.
Import Py.

(** A computation over a state [S] that returns or raises; the state
    it leaves behind is kept in both cases. *)
Definition M (S A : Type) : Type := S -> result A * S.

Definition ret {S A} (a : A) : M S A := fun s => (inr a, s).

Definition raise {S A} (e : exn) : M S A := fun s => (inl e, s).

Definition bind {S A B} (m : M S A) (k : A -> M S B) : M S B :=
  fun s =>
    match m s with
    | (inl e, s') => (inl e, s')
    | (inr a, s') => k a s'
    end.

(** [try: m  except Exception as e: h e] *)
Definition try_except {S A} (m : M S A) (h : exn -> M S A) : M S A :=
  fun s =>
    match m s with
    | (inl e, s') => h e s'
    | (inr a, s') => (inr a, s')
    end.

(** A pure computation that may raise. *)
Definition lift {S A} (r : result A) : M S A := fun s => (r, s).

Definition gets {S A} (f : S -> A) : M S A := fun s => (inr (f s), s).

Definition modify {S} (f : S -> S) : M S unit := fun s => (inr tt, f s).

(** A computation on the second component of a paired state. *)
Definition on_snd {L S A} (m : M S A) : M (L * S) A :=
  fun ls =>
    match m (snd ls) with
    | (r, s') => (r, (fst ls, s'))
    end.

(** [for x in xs: acc = f acc x], stopping at the first exception. *)
Fixpoint foldM {S A B} (f : B -> A -> M S B) (acc : B) (xs : list A) : M S B :=
  match xs with
  | [] => ret acc
  | x :: rest => bind (f acc x) (fun acc' => foldM f acc' rest)
  end.

Fixpoint mapM {S A B} (f : A -> M S B) (xs : list A) : M S (list B) :=
  match xs with
  | [] => ret []
  | x :: rest => bind (f x) (fun y => bind (mapM f rest) (fun ys => ret (y :: ys)))
  end.

(** The same loop for pure computations. *)
Fixpoint rfold {A B} (f : B -> A -> result B) (acc : B) (xs : list A) : result B :=
  match xs with
  | [] => inr acc
  | x :: rest => rbind (f acc x) (fun acc' => rfold f acc' rest)
  end.

End Monad.

Declare Scope monad_scope.
Delimit Scope monad_scope with monad.
Notation "'let*' x ':=' m 'in' k" := (Monad.bind m (fun x => k))
  (at level 10, x pattern, m at level 100, k at level 200) : monad_scope.
Notation "m ';;' k" := (Monad.bind m (fun _ => k))
  (at level 100, k at level 200, right associativity) : monad_scope.
Notation "'let?' x ':=' m 'in' k" := (Py.rbind m (fun x => k))
  (at level 10, x pattern, m at level 100, k at level 200) : monad_scope.
Local Open Scope monad_scope.

(** ** [ThreadsAPIClient] *)

Module ThreadsAPIClient.
Import Py Bundle Monad.

(** A call of [requests.get]: the URL and the query parameters (the headers
    are the same in every call). *)
Record request : Type := {
  url : string;
  params : list (string * json)
}.

(** What the client reads of a [requests.Response]; [body] is [None] when
    the body is not JSON, and [response.json()] raises. *)
Record response : Type := {
  status_code : Z;
  text : string;
  body : option json
}.

(** The calls of [logging.error], by the place they are made at. The calls
    of [logging.info] are left out. *)
Inductive log_event : Type :=
| ApiResponseContent (content : string)
| ApiRequestFailed (e : exn)
| ErrorFetchingPosts (e : exn)
| ErrorProcessingPost (post_id : string) (e : exn).

(** An entry of [self._insights_cache]. *)
Record cache_entry : Type := {
  data : bundle;
  timestamp : Z
}.

(** The state a method runs on: the cache of the client, and around it the
    requests sent so far (oldest first), the calls of [time.sleep], the clock
    [time.time()] and the error log. *)
Record state : Type := {
  _insights_cache : gmap string cache_entry;
  sent : list request;
  slept : list Z;
  now : Z;
  logged : list log_event
}.

Definition set_cache (c : gmap string cache_entry) (st : state) : state :=
  {| _insights_cache := c; sent := sent st; slept := slept st;
     now := now st; logged := logged st |}.

Definition record_request (r : request) (st : state) : state :=
  {| _insights_cache := _insights_cache st; sent := (sent st ++ [r])%list;
     slept := slept st; now := now st; logged := logged st |}.

Definition record_sleep (d : Z) (st : state) : state :=
  {| _insights_cache := _insights_cache st; sent := sent st;
     slept := (slept st ++ [d])%list; now := now st + d; logged := logged st |}.

Definition record_error (ev : log_event) (st : state) : state :=
  {| _insights_cache := _insights_cache st; sent := sent st;
     slept := slept st; now := now st; logged := (logged st ++ [ev])%list |}.

(** [logging.error(...)] *)
Definition logging_error {L} (ev : log_event) : M (L * state) unit :=
  modify (fun ls => (fst ls, record_error ev (snd ls))).

Definition logging_error' (ev : log_event) : M state unit :=
  modify (record_error ev).

(** [time.sleep(d)] *)
Definition time_sleep (d : Z) : M state unit := modify (record_sleep d).

(** The settings of [__init__]. *)
Definition base_url : string := "https://graph.threads.net/v1.0".
Definition batch_size : Z := 100.
Definition insights_batch_size : nat := 10.
Definition api_delay : Z := 500.
Definition basic_fields : list string :=
  ["id"; "shortcode"; "timestamp"; "text"; "is_quote_post"; "media_type"; "permalink"].
Definition metrics : list string :=
  ["views"; "likes"; "replies"; "reposts"; "quotes"; "shares"].
Definition cache_duration : Z := 3600 * 1000.

(** [response.raise_for_status()] of the requests library: [HTTPError] for
    a status between 400 and 599. *)
Definition raise_for_status {S} (r : response) : M S unit :=
  if (400 <=? status_code r) && (status_code r <? 600)
  then raise (HTTPError (status_code r))
  else ret tt.

(** [response.json()] *)
Definition response_json (r : response) : result json :=
  match body r with
  | Some v => inr v
  | None => inl JSONDecodeError
  end.

(** [{metric: 0 for metric in self.metrics}] *)
Definition zero_insights : bundle :=
  foldl (fun d metric => <[HStr metric := JNum 0]> d) ∅ metrics.

Section Client.

(** The network: the outcome of [requests.get], given the requests sent so
    far and the request made. *)
Variable server : list request -> request -> result response.

(** [requests.get(url, headers=self._headers, params=params)] *)
Definition requests_get (u : string) (ps : list (string * json)) : M state response :=
  fun st =>
    let r := {| url := u; params := ps |} in
    (server (sent st) r, record_request r st).

Definition _make_api_request (endpoint : string) (ps : list (string * json))
  : M state response :=
  try_except
    (let* response := requests_get (base_url +:+ "/" +:+ endpoint) ps in
     (if status_code response =? 200 then ret tt
      else logging_error' (ApiResponseContent (text response)));;
     raise_for_status response;;
     time_sleep api_delay;;
     ret response)
    (fun e =>
       if is_request_exception e
       then logging_error' (ApiRequestFailed e);; raise e
       else raise e).

(** *** [get_user_posts] *)

(** How an iteration of the [while] loop ends when it does not raise:
    at the [break] of the test mode, or at the end of the body with the new
    value of [next_page] ([None] when the value is not a string: it is
    falsy then, or the body has raised). *)
Inductive flow : Type :=
| Break
| Next (next_page : option string).

(** [if since: params["since"] = since] *)
Definition since_param (since : option string) : list (string * json) :=
  match since with
  | Some s => if String.eqb s EmptyString then [] else [("since", JStr s)]
  | None => []
  end.

(** [next_page.split(self.base_url + "/")[-1]]: only a string has
    [split]. *)
Definition next_endpoint (next_page : json) : result string :=
  match next_page with
  | JStr s => inr (split_last (base_url +:+ "/") s)
  | _ => inl AttributeError
  end.

(** From [current_batch = self.batch_size] to [params["since"] = since]:
    the parameters of the page request. *)
Definition page_params (limit : Z) (is_test_mode : bool) (since : option string)
    (all_posts : list json) : list (string * json) :=
  let current_batch :=
    if is_test_mode
    then Z.min (limit - Z.of_nat (length all_posts)) batch_size
    else batch_size in
  ([("fields", JStr (join "," basic_fields)); ("limit", JNum current_batch)]
   ++ since_param since)%list.

(** The body of the [try] in the loop. It runs on [all_posts], the list the
    loop extends in place, paired with the state. *)
Definition get_user_posts_body (limit : Z) (is_test_mode : bool)
    (since : option string) (next_page : string) : M (list json * state) flow :=
  let* all_posts := gets fst in
  if is_test_mode && (limit <=? Z.of_nat (length all_posts)) then ret Break
  else
    let ps := page_params limit is_test_mode since all_posts in
    let* response := on_snd (_make_api_request next_page ps) in
    let* data := lift (response_json response) in
    let* posts := lift (get data "data" (JArr [])) in
    let* _ := lift (len posts) in
    let* items := lift (iterate posts) in
    modify (fun ls => ((fst ls ++ items)%list, snd ls));;
    let* paging := lift (get data "paging" (JObj [])) in
    let* next := lift (get paging "next" JNull) in
    if truthy next
    then let* endpoint := lift (next_endpoint next) in ret (Next (Some endpoint))
    else ret (Next None).

(** [while next_page:] *)
Definition loop_continues (next_page : option string) : option string :=
  match next_page with
  | Some s => if String.eqb s EmptyString then None else Some s
  | None => None
  end.

(** The [while] loop, at most [fuel] iterations of it: [None] when the
    iterations do not suffice. *)
Fixpoint get_user_posts_loop (fuel : nat) (limit : Z) (is_test_mode : bool)
    (since : option string) (next_page : option string)
    (ls : list json * state) : option (list json * state) :=
  match loop_continues next_page with
  | None => Some ls
  | Some endpoint =>
      match fuel with
      | O => None
      | S fuel' =>
          match get_user_posts_body limit is_test_mode since endpoint ls with
          | (inl e, ls') =>
              Some (fst ls', record_error (ErrorFetchingPosts e) (snd ls'))
          | (inr Break, ls') => Some ls'
          | (inr (Next next_page'), ls') =>
              get_user_posts_loop fuel' limit is_test_mode since next_page' ls'
          end
      end
  end.

Definition get_user_posts (fuel : nat) (limit : Z) (is_test_mode : bool)
    (since : option string) (st : state) : option (list json * state) :=
  get_user_posts_loop fuel limit is_test_mode since (Some "me/threads") ([], st).

(** *** The insights cache *)

Definition _should_update_cache (post_id : string) (st : state) : bool :=
  match _insights_cache st !! post_id with
  | None => true
  | Some entry => cache_duration <? now st - timestamp entry
  end.

Definition _update_cache (post_id : string) (insights : bundle) : M state unit :=
  modify (fun st =>
    set_cache
      (<[post_id := {| data := insights; timestamp := now st |}]> (_insights_cache st))
      st).

(** *** [_process_single_insight] *)

(** [insights[metric['name']] = value], the value being computed already. *)
Definition set_insight (insights : bundle) (metric value : json) : result bundle :=
  let? name := getitem metric "name" in
  let? key := hash_key name in
  inr (<[key := value]> insights).

(** The body of [for metric in data['data']]. *)
Definition read_metric (insights : bundle) (metric : json) : result bundle :=
  let? values := get metric "values" JNull in
  let? has_values :=
    (if truthy values
     then let? values' := getitem metric "values" in inr (truthy values')
     else inr false) in
  if has_values
  then
    let? values' := getitem metric "values" in
    let? head := first values' in
    let? value := get head "value" (JNum 0) in
    set_insight insights metric value
  else
    let? total := get metric "total_value" JNull in
    if truthy total
    then
      let? total' := getitem metric "total_value" in
      let? value := get total' "value" (JNum 0) in
      set_insight insights metric value
    else inr insights.

(** From [if data and 'data' in data:] to the end of the [else]. *)
Definition read_insights (data : json) : result bundle :=
  let? has_data := (if truthy data then contains data "data" else inr false) in
  if has_data
  then
    let? entries := getitem data "data" in
    let? metrics_data := iterate entries in
    rfold read_metric zero_insights metrics_data
  else inr zero_insights.

Definition _process_single_insight (post_id : string) : M state (string * bundle) :=
  try_except
    (let* response :=
       _make_api_request (post_id +:+ "/insights")
         [("metric", JStr (join "," metrics))] in
     let* data := lift (response_json response) in
     let* insights := lift (read_insights data) in
     ret (post_id, insights))
    (fun e =>
       logging_error' (ErrorProcessingPost post_id e);;
       ret (post_id, zero_insights)).

(** *** [get_post_insights] *)

(** [executor.submit(f, x)]: the worker runs, and the future keeps what it
    returned or raised. The workers of a sub-batch write no state of the
    client; they are run here one after the other in the order of
    submission, before their results are collected. *)
Definition submit {A} (worker : M state A) : M state (result A) :=
  fun st =>
    match worker st with
    | (r, st') => (inr r, st')
    end.

(** The body of [for future in future_to_post], on [insights_map] paired
    with the state; [fp] is a future with the ID it was submitted for. *)
Definition collect (use_cache : bool) (fp : result (string * bundle) * string)
  : M (gmap string bundle * state) unit :=
  try_except
    (let* r := lift (fst fp) in
     modify (fun ls => (<[fst r := snd r]> (fst ls), snd ls));;
     (if use_cache then on_snd (_update_cache (fst r) (snd r)) else ret tt))
    (fun e =>
       logging_error (ErrorProcessingPost (snd fp) e);;
       modify (fun ls => (<[snd fp := zero_insights]> (fst ls), snd ls))).

(** The body of [for i in range(0, len(post_ids), self.insights_batch_size)]
    for the sub-batch [batch]. *)
Definition process_batch (use_cache : bool) (batch : list string)
  : M (gmap string bundle * state) unit :=
  let* futures :=
    on_snd (mapM (fun post_id => submit (_process_single_insight post_id)) batch) in
  foldM (fun _ fp => collect use_cache fp) tt (zip futures batch).

(** [post_ids[i:i + n]] for [i] in [range(0, len(post_ids), n)]: [fuel]
    bounds the number of slices. *)
Fixpoint slices (fuel n : nat) (post_ids : list string) : list (list string) :=
  match fuel, post_ids with
  | O, _ | _, [] => []
  | S fuel', _ => take n post_ids :: slices fuel' n (drop n post_ids)
  end.

Definition sub_batches (post_ids : list string) : list (list string) :=
  slices (length post_ids) insights_batch_size post_ids.

(** [{post_id: self._insights_cache[post_id]['data'] for post_id in post_ids
      if post_id in self._insights_cache}] *)
Definition cached_posts_of (cache : gmap string cache_entry) (post_ids : list string)
  : gmap string bundle :=
  foldl
    (fun d post_id =>
       match cache !! post_id with
       | Some entry => <[post_id := data entry]> d
       | None => d
       end)
    ∅ post_ids.

Definition get_post_insights (post_ids : string + list string) (use_cache : bool)
  : M state (gmap string bundle) :=
  fun st =>
    let post_ids :=
      match post_ids with
      | inl post_id => [post_id]
      | inr ids => ids
      end in
    let '(insights_map, post_ids) :=
      if use_cache
      then
        let cached_posts := cached_posts_of (_insights_cache st) post_ids in
        (cached_posts ∪ (∅ : gmap string bundle),
         filter (fun post_id => cached_posts !! post_id = None) post_ids)
      else (∅, post_ids) in
    match
      foldM (fun _ batch => process_batch use_cache batch) tt
        (sub_batches post_ids) (insights_map, st)
    with
    | (inl e, (_, st')) => (inl e, st')
    | (inr _, (insights_map', st')) => (inr insights_map', st')
    end.

End Client.

End ThreadsAPIClient.

(** ** [CryptoManager] *)

Module CryptoManager.
Import Py Monad.

Abbreviation bytes := (list Byte.byte).

(** What [Fernet.encrypt] draws besides its arguments: the current time and
    the random initialisation vector. *)
Record nonce : Type := {
  time : Z;
  iv : bytes
}.

(** The libraries the class calls: [json], the codec of [str] and
    [cryptography.fernet]. [describe] is the text [str(e)] of an exception
    that Python or a library raises. *)
Class Libraries : Type := {
  json_dumps : json -> string;
  json_loads : string -> result json;
  str_encode : string -> bytes;
  bytes_decode : bytes -> result string;
  fernet_encrypt : bytes -> nonce -> bytes -> bytes;
  fernet_decrypt : bytes -> bytes -> option bytes;
  describe : exn -> string
}.

(** The files, by path. Creating the directory and setting the permissions
    of the directory and of the file are taken to succeed, and the
    permissions are not kept. The calls of the logger are left out. *)
Abbreviation files := (gmap string bytes).

(** The fields [__init__] sets: the key read from the key file, given to
    [Fernet], and the path of the sealed file. *)
Record manager : Type := {
  fernet : bytes;
  credentials_path : string
}.

Section Manager.

Context `{Libraries}.

(** [f"{e}"] *)
Definition str (e : exn) : string :=
  match e with
  | CryptoError message => message
  | _ => describe e
  end.

(** [self.fernet.decrypt(token)] *)
Definition decrypt (self : manager) (token : bytes) : result bytes :=
  match fernet_decrypt (fernet self) token with
  | Some plain => inr plain
  | None => inl InvalidToken
  end.

(** [path.read_bytes()] *)
Definition read_bytes (path : string) : M files bytes :=
  fun fs =>
    match fs !! path with
    | Some content => (inr content, fs)
    | None => (inl FileNotFoundError, fs)
    end.

(** [encrypt_credentials], as far as the sealed file goes: the text of the
    credentials is encrypted and written at [credentials_path]. The source
    also creates the parent directory of the path ([mkdir] with [parents] and
    [exist_ok]) and, off Windows, sets the mode of that directory and of the
    file ([os.chmod]). [files] has the regular files by the text of their
    path, and no directories, modes or links: these three calls are taken to
    succeed and what they change is not in the model. The definition gives
    what the file at [credentials_path] holds after the call; it is not to be
    read as saying that the rest of the file system is left as it was. *)
Definition encrypt_credentials (self : manager) (credentials : json) (n : nonce)
  : M files unit :=
  try_except
    (let json_data := json_dumps credentials in
     let encrypted_data := fernet_encrypt (fernet self) n (str_encode json_data) in
     modify (fun fs : files => <[credentials_path self := encrypted_data]> fs))
    (fun e => raise (CryptoError ("Encryption failed: " +:+ str e))).

Definition load_credentials (self : manager) : M files json :=
  try_except
    (let* present :=
       gets (fun fs : files => bool_decide (is_Some (fs !! credentials_path self))) in
     if negb present then raise (CryptoError "Credentials file not found")
     else
       let* encrypted_data := read_bytes (credentials_path self) in
       let* plain := lift (decrypt self encrypted_data) in
       let* json_data := lift (bytes_decode plain) in
       let* credentials := lift (json_loads json_data) in
       ret credentials)
    (fun e =>
       match e with
       | InvalidToken => raise (CryptoError "Invalid encryption key or corrupted data")
       | _ => raise (CryptoError ("Decryption failed: " +:+ str e))
       end).

Definition get_single_credential (self : manager) (key : string) : M files json :=
  try_except
    (let* creds := load_credentials self in
     let* present := lift (contains creds key) in
     if negb present then raise (CryptoError ("找不到指定的憑證: " +:+ key))
     else lift (getitem creds key))
    (fun e => raise (CryptoError ("獲取憑證 '" +:+ key +:+ "' 時發生錯誤: " +:+ str e))).

End Manager.

End CryptoManager.

(** ** A model of the libraries

    A small instance of [Libraries], to run the credential store on: compact
    JSON text without escapes, the bytes of a string as its encoding, and a
    keyed checksum over a masked message in the place of Fernet. *)

Module LibraryModel.
Import Py CryptoManager.

Definition dquote : Ascii.ascii := Ascii.ascii_of_nat 34.

Definition quote (s : string) : string := String dquote s +:+ String dquote EmptyString.

Fixpoint dumps (v : json) : string :=
  match v with
  | JNull => "null"
  | JBool true => "true"
  | JBool false => "false"
  | JNum n => pretty.pretty n
  | JStr s => quote s
  | JArr items => "[" +:+ join "," (map dumps items) +:+ "]"
  | JObj members =>
      "{" +:+ join "," (map (fun kv : string * json => let (k, x) := kv in quote k +:+ ":" +:+ dumps x) members)
      +:+ "}"
  end.

(** The text up to the closing quote, and what follows it. *)
Fixpoint read_string (s : string) : option (string * string) :=
  match s with
  | EmptyString => None
  | String c rest =>
      if Ascii.eqb c dquote then Some (EmptyString, rest)
      else
        match read_string rest with
        | Some (body, rest') => Some (String c body, rest')
        | None => None
        end
  end.

Definition digit_of (c : Ascii.ascii) : option Z :=
  let n := Z.of_N (Ascii.N_of_ascii c) in
  if (48 <=? n) && (n <=? 57) then Some (n - 48) else None.

(** The digits at the head of [s], read onto [acc]. *)
Fixpoint read_digits (s : string) (acc : Z) (seen : bool) : option (Z * string) :=
  match s with
  | EmptyString => if seen then Some (acc, s) else None
  | String c rest =>
      match digit_of c with
      | Some d => read_digits rest (10 * acc + d) true
      | None => if seen then Some (acc, s) else None
      end
  end.

Definition read_number (s : string) : option (json * string) :=
  match s with
  | String "-"%char rest =>
      match read_digits rest 0 false with
      | Some (n, rest') => Some (JNum (- n), rest')
      | None => None
      end
  | _ =>
      match read_digits s 0 false with
      | Some (n, rest') => Some (JNum n, rest')
      | None => None
      end
  end.

(** What the reader is in the middle of. *)
Inductive mode : Type :=
| Value
| Items (acc : list json)
| Members (acc : list (string * json)).

Fixpoint read (fuel : nat) (m : mode) (s : string) : option (json * string) :=
  match fuel with
  | O => None
  | S fuel' =>
      match m with
      | Value =>
          match s with
          | String "n"%char (String "u"%char (String "l"%char (String "l"%char rest))) => Some (JNull, rest)
          | String "t"%char (String "r"%char (String "u"%char (String "e"%char rest))) => Some (JBool true, rest)
          | String "f"%char (String "a"%char (String "l"%char (String "s"%char (String "e"%char rest)))) =>
              Some (JBool false, rest)
          | String "["%char (String "]"%char rest) => Some (JArr [], rest)
          | String "["%char rest => read fuel' (Items []) rest
          | String "{"%char (String "}"%char rest) => Some (JObj [], rest)
          | String "{"%char rest => read fuel' (Members []) rest
          | String c rest =>
              if Ascii.eqb c dquote
              then
                match read_string rest with
                | Some (body, rest') => Some (JStr body, rest')
                | None => None
                end
              else read_number s
          | EmptyString => None
          end
      | Items acc =>
          match read fuel' Value s with
          | Some (x, String ","%char rest) => read fuel' (Items (acc ++ [x])%list) rest
          | Some (x, String "]"%char rest) => Some (JArr (acc ++ [x])%list, rest)
          | _ => None
          end
      | Members acc =>
          match s with
          | String c rest =>
              match (if Ascii.eqb c dquote then read_string rest else None) with
              | Some (k, String ":"%char rest') =>
                  match read fuel' Value rest' with
                  | Some (x, String ","%char rest2) =>
                      read fuel' (Members (acc ++ [(k, x)])%list) rest2
                  | Some (x, String "}"%char rest2) => Some (JObj (acc ++ [(k, x)])%list, rest2)
                  | _ => None
                  end
              | _ => None
              end
          | EmptyString => None
          end
      end
  end.

Definition loads (s : string) : result json :=
  match read (String.length s + 1) Value s with
  | Some (v, EmptyString) => inr v
  | _ => inl JSONDecodeError
  end.

Definition xor_byte (a b : Byte.byte) : Byte.byte :=
  default Byte.x00 (Byte.of_N (N.lxor (Byte.to_N a) (Byte.to_N b))).

(** The byte a key masks a message with. *)
Definition pad (key : bytes) : Byte.byte := foldr xor_byte Byte.x5a key.

Definition checksum (key data : bytes) : N :=
  foldl (fun acc b => ((acc * 257 + Byte.to_N b + 1) mod 65521)%N) 7%N (key ++ data)%list.

Definition tag (key data : bytes) : bytes :=
  let t := checksum key data in
  [default Byte.x00 (Byte.of_N (t / 256)); default Byte.x00 (Byte.of_N (t mod 256))].

Definition seal (key : bytes) (n : nonce) (plain : bytes) : bytes :=
  let masked := map (xor_byte (pad key)) plain in
  (tag key masked ++ masked)%list.

Definition unseal (key token : bytes) : option bytes :=
  match token with
  | hi :: lo :: masked =>
      if (checksum key masked =? Byte.to_N hi * 256 + Byte.to_N lo)%N
      then Some (map (xor_byte (pad key)) masked)
      else None
  | _ => None
  end.

#[export] Instance libraries : Libraries := {|
  json_dumps := dumps;
  json_loads := loads;
  str_encode := String.list_byte_of_string;
  bytes_decode := fun b => inr (String.string_of_list_byte b);
  fernet_encrypt := seal;
  fernet_decrypt := unseal;
  describe := fun _ => "error"
|}.

End LibraryModel.


(** ** Notions the properties are stated with *)

Module Notions.
Import Py Bundle Monad ThreadsAPIClient.

(** The request [_make_api_request] sends. *)
Definition api_request (endpoint : string) (ps : list (string * json)) : request :=
  {| url := base_url +:+ "/" +:+ endpoint; params := ps |}.

(** Is the status one [raise_for_status] raises on? *)
Definition is_error_status (status : Z) : bool :=
  (400 <=? status) && (status <? 600).

(** The request [_process_single_insight] sends for a post. *)
Definition insights_request (post_id : string) : request :=
  api_request (post_id +:+ "/insights") [("metric", JStr (join "," metrics))].

(** What the [try] of [_process_single_insight] comes to, by the outcome of
    [requests.get]: the exception it raises, or the bundle it reads. *)
Definition insights_read (outcome : result response) : result bundle :=
  match outcome with
  | inl e => inl e
  | inr resp =>
      if is_error_status (status_code resp)
      then inl (HTTPError (status_code resp))
      else let? data := response_json resp in read_insights data
  end.

(** The bundle of a post, by the outcome of its request: the bundle read,
    or the zero-filled bundle when the request or the reading raised. *)
Definition insights_of (outcome : result response) : bundle :=
  match insights_read outcome with
  | inr insights => insights
  | inl _ => zero_insights
  end.

(** The bundles of the posts [post_ids], fetched one after the other from a
    server that has seen the requests [history]. *)
Fixpoint fetched (server : list request -> request -> result response)
    (history : list request) (post_ids : list string) : list (string * bundle) :=
  match post_ids with
  | [] => []
  | post_id :: rest =>
      (post_id, insights_of (server history (insights_request post_id)))
      :: fetched server (history ++ [insights_request post_id])%list rest
  end.

(** [insights_map[post_id] = insights] for each result in turn. *)
Definition store (insights_map : gmap string bundle) (results : list (string * bundle))
  : gmap string bundle :=
  foldl (fun d r => <[fst r := snd r]> d) insights_map results.

(** The IDs a call is made with, as a list. *)
Definition requested (post_ids : string + list string) : list string :=
  match post_ids with
  | inl post_id => [post_id]
  | inr ids => ids
  end.

(** The IDs of a call that have an entry in the cache, and those that have
    none; without the cache every ID is a miss. *)
Definition cache_hits (use_cache : bool) (cache : gmap string cache_entry)
    (post_ids : list string) : list string :=
  if use_cache then filter (fun post_id => is_Some (cache !! post_id)) post_ids else [].

Definition cache_misses (use_cache : bool) (cache : gmap string cache_entry)
    (post_ids : list string) : list string :=
  if use_cache then filter (fun post_id => cache !! post_id = None) post_ids else post_ids.

(** [pages_fetched server limit mode since next_page ls n next_page' ls']:
    from [next_page] and the posts and state [ls], [n] iterations of the loop
    of [get_user_posts] run to the end of their body, and leave [next_page']
    and [ls']. *)
Inductive pages_fetched (server : list request -> request -> result response)
    (limit : Z) (is_test_mode : bool) (since : option string)
  : option string -> list json * state -> nat
    -> option string -> list json * state -> Prop :=
| fetched_none next_page ls :
    pages_fetched server limit is_test_mode since next_page ls 0 next_page ls
| fetched_more next_page endpoint ls next_page1 ls1 n next_page2 ls2 :
    loop_continues next_page = Some endpoint ->
    get_user_posts_body server limit is_test_mode since endpoint ls
    = (inr (Next next_page1), ls1) ->
    pages_fetched server limit is_test_mode since next_page1 ls1 n next_page2 ls2 ->
    pages_fetched server limit is_test_mode since next_page ls (S n) next_page2 ls2.

(** How a run of the loop that started at [next_page] and [ls] came to
    return [ls']: the link to the next page is absent, or the test mode has
    its [limit] posts, or an iteration raised. *)
Inductive loop_ends (server : list request -> request -> result response)
    (limit : Z) (is_test_mode : bool) (since : option string)
    (next_page : option string) (ls ls' : list json * state) : Prop :=
| ends_exhausted n next_page1 :
    pages_fetched server limit is_test_mode since next_page ls n next_page1 ls' ->
    loop_continues next_page1 = None ->
    loop_ends server limit is_test_mode since next_page ls ls'
| ends_at_limit n next_page1 :
    pages_fetched server limit is_test_mode since next_page ls n next_page1 ls' ->
    is_test_mode = true ->
    limit <= Z.of_nat (length (fst ls')) ->
    loop_ends server limit is_test_mode since next_page ls ls'
| ends_at_failure n next_page1 endpoint ls1 e ls2 :
    pages_fetched server limit is_test_mode since next_page ls n next_page1 ls1 ->
    loop_continues next_page1 = Some endpoint ->
    get_user_posts_body server limit is_test_mode since endpoint ls1 = (inl e, ls2) ->
    ls' = (fst ls2, record_error (ErrorFetchingPosts e) (snd ls2)) ->
    loop_ends server limit is_test_mode since next_page ls ls'.

(** *** Sample states and servers *)

(** A client just built: nothing cached, nothing sent. *)
Definition fresh : state :=
  {| _insights_cache := ∅; sent := []; slept := []; now := 0; logged := [] |}.

Definition reply (status : Z) (content : option json) : result response :=
  inr {| status_code := status; text := "body"; body := content |}.

(** A server that answers every request with the status given. *)
Definition always (status : Z) : list request -> request -> result response :=
  fun _ _ => reply status None.

(** A page of the listing: its posts and the link to the next page. *)
Definition page (posts : list json) (next : option string) : json :=
  JObj ([("data", JArr posts)]
        ++ match next with
           | Some link => [("paging", JObj [("next", JStr link)])]
           | None => []
           end)%list.

(** A listing of three pages, the second of which is broken. *)
Definition broken_second_page : list request -> request -> result response :=
  fun _ r =>
    if String.eqb (url r) (base_url +:+ "/me/threads")
    then reply 200 (Some (page [JStr "p1"; JStr "p2"] (Some (base_url +:+ "/me/threads?after=p2"))))
    else if String.eqb (url r) (base_url +:+ "/me/threads?after=p2")
    then reply 500 None
    else reply 200 (Some (page [JStr "p5"] None)).

(** A listing of two pages of two posts. *)
Definition two_pages : list request -> request -> result response :=
  fun _ r =>
    if String.eqb (url r) (base_url +:+ "/me/threads")
    then reply 200 (Some (page [JStr "p1"; JStr "p2"] (Some (base_url +:+ "/me/threads?after=p2"))))
    else reply 200 (Some (page [JStr "p3"; JStr "p4"] None)).

(** The answer of the metrics endpoint for a post with the views and likes
    given. *)
Definition metrics_reply (views likes : Z) : result response :=
  reply 200
    (Some (JObj [("data",
       JArr [JObj [("name", JStr "views"); ("values", JArr [JObj [("value", JNum views)]])];
             JObj [("name", JStr "likes"); ("total_value", JObj [("value", JNum likes)])]])])).

(** The metrics endpoint that answers for the posts [a] and [c] and times
    out for [b]. *)
Definition b_times_out : list request -> request -> result response :=
  fun _ r =>
    if String.eqb (url r) (base_url +:+ "/a/insights") then metrics_reply 100 10
    else if String.eqb (url r) (base_url +:+ "/c/insights") then metrics_reply 50 5
    else inl (RequestException "timed out").

(** A bundle fetched before. *)
Definition seen : bundle := <[HStr "views" := JNum 7]> zero_insights.

(** A client whose entry for the post [a] was written at time 0, at a time
    twice the duration of the cache after it. *)
Definition stale : state :=
  {| _insights_cache := {["a" := {| data := seen; timestamp := 0 |}]};
     sent := []; slept := []; now := 2 * cache_duration; logged := [] |}.

End Notions.

(** ** Sample credentials *)

Module Samples.
Import Py CryptoManager LibraryModel.

Definition key1 : bytes := [Byte.x6b; Byte.x65; Byte.x79; Byte.x31].
Definition key2 : bytes := [Byte.x6b; Byte.x65; Byte.x79; Byte.x32].

Definition store1 : manager := {| fernet := key1; credentials_path := "config/credentials.enc" |}.
Definition store2 : manager := {| fernet := key2; credentials_path := "config/credentials.enc" |}.

Definition secrets : json :=
  JObj [("threads_token", JStr "token-123");
        ("spreadsheet_id", JStr "sheet-456");
        ("google_credentials",
         JObj [("type", JStr "service_account"); ("project_id", JStr "analytics")])].

Definition drawn : nonce := {| time := 1700000000; iv := [Byte.x00; Byte.x01] |}.

(** The files after [store1] has sealed [secrets]. *)
Definition sealed : files := snd (encrypt_credentials store1 secrets drawn ∅).

(** The same files with one bit of the sealed file flipped. *)
Definition tampered : files :=
  alter (alter (xor_byte Byte.x01) 2%nat) (credentials_path store1) sealed.

End Samples.

(** ** Notions of the further properties *)

Module MoreNotions.
Import Py Bundle Monad ThreadsAPIClient Notions.

(** What a page request of [get_user_posts] is made of: an endpoint under
    the base URL, the seven fields, the [since] of the call when it is not
    empty, and a [limit] from 1 to the batch size, in test mode no more than
    the [limit] of the call and in the other modes the batch size. *)
Definition page_request_ok (limit : Z) (is_test_mode : bool) (since : option string)
    (r : request) : Prop :=
  (exists endpoint, url r = base_url +:+ "/" +:+ endpoint)
  /\ lookup_member "fields" (params r)
     = Some (JStr "id,shortcode,timestamp,text,is_quote_post,media_type,permalink")
  /\ lookup_member "since" (params r)
     = match since with
       | Some s => if String.eqb s EmptyString then None else Some (JStr s)
       | None => None
       end
  /\ exists n,
       lookup_member "limit" (params r) = Some (JNum n)
       /\ 1 <= n <= batch_size
       /\ if is_test_mode then n <= limit else n = batch_size.

(** The entries the loop [for metric in data['data']] of
    [_process_single_insight] goes through, by the outcome of the request:
    none when the request raised or was answered with an error status, when
    the answer is not JSON, is falsy or has no ['data'], or when ['data']
    cannot be read or iterated over. *)
Definition entries_read (outcome : result response) : list json :=
  match outcome with
  | inl _ => []
  | inr resp =>
      if is_error_status (status_code resp) then []
      else
        match
          (let? data := response_json resp in
           let? has_data := (if truthy data then contains data "data" else inr false) in
           if has_data
           then let? entries := getitem data "data" in iterate entries
           else inr [])
        with
        | inr metrics_data => metrics_data
        | inl _ => []
        end
  end.

(** Does the entry carry the name [metric], as [metric['name']]? *)
Definition names (metric : string) (entry : json) : Prop :=
  getitem entry "name" = inr (JStr metric).

End MoreNotions.

(** ** Building a manager and a client *)

Module Construction.
Import Py Monad ThreadsAPIClient CryptoManager.

(** [os.environ], after [load_dotenv()]. *)
Abbreviation environ := (gmap string string).

(** What the construction meets besides the libraries of the store:
    [key_rejected] is the exception [Fernet(key)] raises on a key it does
    not take, [under_root] is the path [project_root / path], [repr] is the
    text of a value other than a string in an f-string, and [get_me] is the
    outcome of the [requests.get] of [verify_threads_token], by the headers
    it is made with. *)
Class Platform : Type := {
  key_rejected : bytes -> option exn;
  under_root : string -> string;
  repr : json -> string;
  get_me : list (string * string) -> result response
}.

Section Construction.

Context `{Libraries} `{Platform}.

(** [Fernet(encryption_key)] *)
Definition new_fernet (encryption_key : bytes) : result bytes :=
  match key_rejected encryption_key with
  | Some e => inl e
  | None => inr encryption_key
  end.

(** [CryptoManager.__init__], on paths given as their text. *)
Definition init (key_path credentials_path : string) : M files manager :=
  try_except
    (let* present := gets (fun fs : files => bool_decide (is_Some (fs !! key_path))) in
     if negb present
     then raise (CryptoError ("Encryption key file not found: " +:+ key_path))
     else
       let* encryption_key := read_bytes key_path in
       let* key := lift (new_fernet encryption_key) in
       ret {| fernet := key; credentials_path := credentials_path |})
    (fun e => raise (CryptoError ("Initialization failed: " +:+ str e))).

(** [not os.getenv(name)] *)
Definition unset (value : option string) : bool :=
  match value with
  | Some s => String.eqb s EmptyString
  | None => true
  end.

(** [CryptoManager.from_env] *)
Definition from_env (env : environ) : M files manager :=
  let key_path := env !! "CRYPTO_KEY_PATH" in
  let credentials_path := env !! "CREDENTIALS_PATH" in
  if unset key_path
  then raise (CryptoError "Missing CRYPTO_KEY_PATH environment variable")
  else if unset credentials_path
  then raise (CryptoError "Missing CREDENTIALS_PATH environment variable")
  else
    try_except
      (let full_key_path := under_root (default EmptyString key_path) in
       let full_creds_path := under_root (default EmptyString credentials_path) in
       init full_key_path full_creds_path)
      (fun e => raise (CryptoError ("Environment initialization failed: " +:+ str e))).

(** What [ThreadsAPIClient.__init__] raises: the [ValueError]s of its own,
    or an exception of the store. *)
Inductive raised : Type :=
| ValueError (message : string)
| Raised (e : exn).

(** [f"{token}"] *)
Definition fstring (v : json) : string :=
  match v with
  | JStr s => s
  | _ => repr v
  end.

(** The headers a token gives. *)
Definition bearer (token : json) : list (string * string) :=
  [("Authorization", "Bearer " +:+ fstring token);
   ("Content-Type", "application/json")].

(** [ThreadsAPIClient.__init__]: the headers and the cache of the client
    built, or what is raised, with the messages of [logging.error]. The
    settings that follow are constants. *)
Definition new_client (env : environ) (fs : files)
  : (raised + list (string * string) * gmap string cache_entry) * list string :=
  if unset (env !! "CREDENTIALS_PATH")
  then (inl (ValueError "CREDENTIALS_PATH environment variable not set"), [])
  else
    match from_env env fs with
    | (inl e, _) => (inl (Raised e), ["Error occurred during initialization"])
    | (inr crypto_manager, fs1) =>
        match get_single_credential crypto_manager "threads_token" fs1 with
        | (inl e, _) => (inl (Raised e), ["Error occurred during initialization"])
        | (inr token, _) =>
            if negb (truthy token)
            then (inl (ValueError "Unable to obtain access token"),
                  ["Error occurred during initialization"])
            else (inr (bearer token, ∅), [])
        end
    end.

(** [verify_threads_token] of [verify_credentials.py]; the calls of the
    logger are left out. *)
Definition verify_threads_token (crypto_manager : manager) (fs : files) : bool :=
  match get_single_credential crypto_manager "threads_token" fs with
  | (inl _, _) => false
  | (inr threads_token, _) =>
      if negb (truthy threads_token) then false
      else
        match get_me (bearer threads_token) with
        | inl _ => false
        | inr response => status_code response =? 200
        end
  end.

End Construction.

End Construction.

(** A platform to run the construction on: every key is taken, and the
    endpoint answers 200 to the bearer of the sample token alone. *)
Module PlatformModel.
Import Py ThreadsAPIClient CryptoManager Construction LibraryModel Samples.

#[export] Instance platform : Platform := {|
  key_rejected := fun _ => None;
  under_root := fun path => "/srv/threads/" +:+ path;
  repr := dumps;
  get_me := fun headers =>
    inr {| status_code :=
             if bool_decide (headers = [("Authorization", "Bearer token-123");
                                        ("Content-Type", "application/json")])
             then 200 else 401;
           text := EmptyString; body := None |}
|}.

(** The environment of a deployment, and its files: the key, and the sample
    credentials sealed under it. *)
Definition deployment : gmap string string :=
  {["CRYPTO_KEY_PATH" := "secure/keys/crypto.key";
    "CREDENTIALS_PATH" := "config/credentials.enc"]}.

Definition installed : files :=
  snd (encrypt_credentials
         {| fernet := key1; credentials_path := "/srv/threads/config/credentials.enc" |}
         secrets drawn
         {["/srv/threads/secure/keys/crypto.key" := key1]}).

End PlatformModel.

(** ** More sample servers *)

Module MoreSamples.
Import Py ThreadsAPIClient Notions.

(** A listing every page of which has two posts and a link to a next
    page. *)
Definition endless : list request -> request -> result response :=
  fun _ _ =>
    reply 200 (Some (page [JStr "p1"; JStr "p2"] (Some (base_url +:+ "/me/threads?after=p2")))).

(** A listing whose page has a post, and a text where the paging should
    be. *)
Definition broken_paging : list request -> request -> result response :=
  fun _ _ =>
    reply 200 (Some (JObj [("data", JArr [JStr "p1"]); ("paging", JStr "broken")])).

End MoreSamples.

(** * Properties of the client *)

Module ClientProperties.
Import Py Bundle Monad ThreadsAPIClient Notions.

(** Unfolds the operations of the monad. *)
Ltac run :=
  unfold bind, try_except, ret, raise, lift, gets, modify, on_snd,
    logging_error, logging_error', time_sleep, requests_get, raise_for_status in *;
  simpl in *.

(** ** [_make_api_request] *)

Section MakeApiRequest.

Variable server : list request -> request -> result response.

(** Every call sends its request, once, and leaves the cache and the clock
    of a failed call alone. *)
Lemma make_api_request_sent endpoint ps st :
  sent (snd (_make_api_request server endpoint ps st))
  = (sent st ++ [api_request endpoint ps])%list.
Proof.
  unfold _make_api_request, api_request. run.
  destruct (server _ _) as [e | resp]; simpl.
  - destruct (is_request_exception e); reflexivity.
  - destruct (status_code resp =? 200); simpl;
      destruct ((400 <=? status_code resp) && (status_code resp <? 600)); reflexivity.
Qed.

Lemma make_api_request_cache endpoint ps st :
  _insights_cache (snd (_make_api_request server endpoint ps st)) = _insights_cache st.
Proof.
  unfold _make_api_request. run.
  destruct (server _ _) as [e | resp]; simpl.
  - destruct (is_request_exception e); reflexivity.
  - destruct (status_code resp =? 200); simpl;
      destruct ((400 <=? status_code resp) && (status_code resp <? 600)); reflexivity.
Qed.

(** What a call returns or raises, by the outcome of [requests.get]. *)
Lemma make_api_request_result endpoint ps st :
  fst (_make_api_request server endpoint ps st)
  = match server (sent st) (api_request endpoint ps) with
    | inl e => inl e
    | inr resp =>
        if is_error_status (status_code resp)
        then inl (HTTPError (status_code resp))
        else inr resp
    end.
Proof.
  unfold _make_api_request, api_request, is_error_status. run.
  destruct (server _ _) as [e | resp]; simpl.
  - destruct (is_request_exception e); reflexivity.
  - destruct (status_code resp =? 200); simpl;
      destruct ((400 <=? status_code resp) && (status_code resp <? 600)); reflexivity.
Qed.

(** The calls of [time.sleep] a call makes. *)
Lemma make_api_request_slept endpoint ps st :
  slept (snd (_make_api_request server endpoint ps st))
  = match server (sent st) (api_request endpoint ps) with
    | inl _ => slept st
    | inr resp =>
        if is_error_status (status_code resp)
        then slept st
        else (slept st ++ [api_delay])%list
    end.
Proof.
  unfold _make_api_request, api_request, is_error_status. run.
  destruct (server _ _) as [e | resp]; simpl.
  - destruct (is_request_exception e); reflexivity.
  - destruct (status_code resp =? 200); simpl;
      destruct ((400 <=? status_code resp) && (status_code resp <? 600)); reflexivity.
Qed.

End MakeApiRequest.

(** ** The delay between requests *)

(** C6, as the specification states it, does not hold: on a response with
    status 500 [_make_api_request] raises and does not sleep, and on a
    response with status 304, which is not a 2xx status, it raises
    nothing. *)
Lemma make_api_request_sleep_not_unconditional :
  (fst (_make_api_request (always 500) "me/threads" [] fresh) = inl (HTTPError 500)
   /\ slept (snd (_make_api_request (always 500) "me/threads" [] fresh)) = [])
  /\ (exists resp,
        fst (_make_api_request (always 304) "me/threads" [] fresh) = inr resp
        /\ status_code resp = 304).
Proof.
  split; [split; reflexivity |].
  eexists; split; reflexivity.
Qed.

(** C6, amended: a call sends one request. When [requests.get] raises, or
    the response has a status from 400 to 599, the call raises (the
    [HTTPError] carrying the status in the second case) and does not sleep.
    On every other response the call sleeps the fixed delay once and returns
    the response. *)
Theorem make_api_request_sleeps_after_success
    (server : list request -> request -> result response)
    (endpoint : string) (ps : list (string * json)) (st : state) :
  let out := _make_api_request server endpoint ps st in
  sent (snd out) = (sent st ++ [api_request endpoint ps])%list
  /\ match server (sent st) (api_request endpoint ps) with
     | inl e => fst out = inl e /\ slept (snd out) = slept st
     | inr resp =>
         if is_error_status (status_code resp)
         then fst out = inl (HTTPError (status_code resp)) /\ slept (snd out) = slept st
         else fst out = inr resp /\ slept (snd out) = (slept st ++ [api_delay])%list
     end.
Proof.
  intros out. subst out. split; [apply make_api_request_sent |].
  rewrite make_api_request_result, make_api_request_slept.
  destruct (server _ _) as [e | resp]; [split; reflexivity |].
  destruct (is_error_status (status_code resp)); split; reflexivity.
Qed.

(** ** [get_user_posts] *)

Section Listing.

Variable server : list request -> request -> result response.
Variables (limit : Z) (is_test_mode : bool) (since : option string).

#[local] Arguments _make_api_request : simpl never.

(** Splits every [match] the goal decides by. *)
Ltac split_cases :=
  repeat match goal with
         | |- context [match ?x with _ => _ end] => destruct x eqn:?; simpl
         | |- context [if ?b then _ else _] => destruct b eqn:?; simpl
         end.

(** The [break] of the test mode: no request, and the posts as they are. *)
Lemma body_break endpoint all_posts st :
  is_test_mode && (limit <=? Z.of_nat (length all_posts)) = true ->
  get_user_posts_body server limit is_test_mode since endpoint (all_posts, st)
  = (inr Break, (all_posts, st)).
Proof. intros Hb. unfold get_user_posts_body. run. rewrite Hb. reflexivity. Qed.

(** Past the [break], the body sends the page request, and what it leaves
    of the state is what the request leaves. *)
Lemma body_state endpoint all_posts st :
  is_test_mode && (limit <=? Z.of_nat (length all_posts)) = false ->
  snd (snd (get_user_posts_body server limit is_test_mode since endpoint (all_posts, st)))
  = snd (_make_api_request server endpoint
           (page_params limit is_test_mode since all_posts) st).
Proof.
  intros Hb. unfold get_user_posts_body. run. rewrite Hb.
  destruct (_make_api_request _ _ _ _) as [[e | resp] st']; simpl; [reflexivity |].
  split_cases; reflexivity.
Qed.

(** A request that raises ends the body with the posts as they were. *)
Lemma body_request_fails endpoint all_posts st e st' :
  is_test_mode && (limit <=? Z.of_nat (length all_posts)) = false ->
  _make_api_request server endpoint (page_params limit is_test_mode since all_posts) st
  = (inl e, st') ->
  get_user_posts_body server limit is_test_mode since endpoint (all_posts, st)
  = (inl e, (all_posts, st')).
Proof.
  intros Hb Hreq. unfold get_user_posts_body, bind, gets, on_snd. simpl.
  rewrite Hb. simpl. rewrite Hreq. reflexivity.
Qed.

(** An iteration that raises keeps the posts collected before it: it leaves
    them as they were, or with the posts of its own page after them. *)
Lemma body_failure_keeps_posts endpoint all_posts st e ls' :
  get_user_posts_body server limit is_test_mode since endpoint (all_posts, st)
  = (inl e, ls') ->
  all_posts `prefix_of` fst ls'.
Proof.
  unfold get_user_posts_body. run.
  destruct (is_test_mode && (limit <=? Z.of_nat (length all_posts))); [discriminate |].
  destruct (_make_api_request _ _ _ _) as [[e' | resp] st']; simpl.
  - intros [= <- <-]. reflexivity.
  - split_cases; intros [= <- <-]; simpl;
      first [reflexivity | apply prefix_app_r; reflexivity].
Qed.

(** Only the test mode breaks. *)
Lemma body_breaks_in_test_mode endpoint ls ls' :
  get_user_posts_body server limit is_test_mode since endpoint ls = (inr Break, ls') ->
  is_test_mode = true /\ limit <= Z.of_nat (length (fst ls)) /\ ls' = ls.
Proof.
  destruct ls as [all_posts st]. unfold get_user_posts_body. run.
  destruct (is_test_mode && (limit <=? Z.of_nat (length all_posts))) eqn:Hb.
  - intros [= <-]. apply andb_true_iff in Hb as [-> Hle]. repeat split. simpl. lia.
  - destruct (_make_api_request _ _ _ _) as [[e | resp] st']; simpl; [discriminate |].
    split_cases; discriminate.
Qed.

(** The loop goes through the pages fetched. *)
Lemma loop_after_pages next_page ls n next_page' ls' :
  pages_fetched server limit is_test_mode since next_page ls n next_page' ls' ->
  forall fuel,
    get_user_posts_loop server (n + fuel) limit is_test_mode since next_page ls
    = get_user_posts_loop server fuel limit is_test_mode since next_page' ls'.
Proof.
  induction 1 as [| next_page endpoint ls next_page1 ls1 n next_page2 ls2 Hc Hb _ IH];
    intros fuel; [reflexivity |].
  simpl. rewrite Hc, Hb. apply IH.
Qed.

(** An iteration that raises ends the loop: the error is logged, and the
    posts are those the iteration leaves. *)
Lemma loop_at_failure fuel next_page endpoint ls e ls' :
  loop_continues next_page = Some endpoint ->
  get_user_posts_body server limit is_test_mode since endpoint ls = (inl e, ls') ->
  get_user_posts_loop server (S fuel) limit is_test_mode since next_page ls
  = Some (fst ls', record_error (ErrorFetchingPosts e) (snd ls')).
Proof. intros Hc Hb. simpl. rewrite Hc, Hb. reflexivity. Qed.

(** Every run that returns ends in one of the three ways. *)
Lemma loop_returns fuel : forall next_page ls ls',
  get_user_posts_loop server fuel limit is_test_mode since next_page ls = Some ls' ->
  loop_ends server limit is_test_mode since next_page ls ls'.
Proof.
  induction fuel as [| fuel IH]; intros next_page ls ls'; simpl.
  - destruct (loop_continues next_page) eqn:Hc; [discriminate |].
    intros [= <-]. eapply ends_exhausted; [apply fetched_none | exact Hc].
  - destruct (loop_continues next_page) as [endpoint |] eqn:Hc.
    + destruct (get_user_posts_body _ _ _ _ _ _) as [[e | [| next_page1]] ls1] eqn:Hb.
      * intros [= <-]. eapply ends_at_failure; eauto using fetched_none.
      * intros [= <-]. apply body_breaks_in_test_mode in Hb as (Ht & Hle & ->).
        eapply ends_at_limit; eauto using fetched_none.
      * intros Hrun. apply IH in Hrun.
        destruct Hrun as [n np Hp Hn | n np Hp Ht Hle | n np ep la e lb Hp Hn Hf ->].
        -- eapply ends_exhausted; [eapply fetched_more; eauto | exact Hn].
        -- eapply ends_at_limit; [eapply fetched_more; eauto | exact Ht | exact Hle].
        -- eapply ends_at_failure; [eapply fetched_more; eauto | exact Hn | exact Hf | reflexivity].
    + intros [= <-]. eapply ends_exhausted; [apply fetched_none | exact Hc].
Qed.

End Listing.

(** C5: when the request for a page fails, in a run that has fetched [n]
    pages before it, [get_user_posts] returns: the error is logged, no
    further page is asked for, and the posts returned are exactly those of
    the [n] pages fetched. *)
Theorem get_user_posts_stops_at_failed_page
    (server : list request -> request -> result response)
    (limit : Z) (is_test_mode : bool) (since : option string) (st : state)
    (n : nat) (next_page : option string) (endpoint : string)
    (all_posts : list json) (st1 : state) (e : exn) (st2 : state) (fuel : nat) :
  pages_fetched server limit is_test_mode since
    (Some "me/threads") ([], st) n next_page (all_posts, st1) ->
  loop_continues next_page = Some endpoint ->
  is_test_mode && (limit <=? Z.of_nat (length all_posts)) = false ->
  _make_api_request server endpoint
    (page_params limit is_test_mode since all_posts) st1 = (inl e, st2) ->
  get_user_posts server (n + S fuel) limit is_test_mode since st
  = Some (all_posts, record_error (ErrorFetchingPosts e) st2)
  /\ sent (record_error (ErrorFetchingPosts e) st2)
     = (sent st1 ++ [api_request endpoint
                       (page_params limit is_test_mode since all_posts)])%list
  /\ logged (record_error (ErrorFetchingPosts e) st2)
     = (logged st2 ++ [ErrorFetchingPosts e])%list.
Proof.
  intros Hpages Hc Hb Hreq. split; [| split; [| reflexivity]].
  - unfold get_user_posts. rewrite (loop_after_pages _ _ _ _ _ _ _ _ _ Hpages).
    erewrite loop_at_failure; [| exact Hc | apply body_request_fails; eassumption].
    reflexivity.
  - simpl. rewrite <- (make_api_request_sent server endpoint _ st1), Hreq. reflexivity.
Qed.

(** The listing with a broken second page: the posts of the first page come
    back, and the error is logged. *)
Lemma get_user_posts_stops_at_failed_page_witness :
  exists st2,
    get_user_posts broken_second_page 3 100 false None fresh
    = Some ([JStr "p1"; JStr "p2"], record_error (ErrorFetchingPosts (HTTPError 500)) st2).
Proof.
  eexists.
  refine (proj1 (get_user_posts_stops_at_failed_page broken_second_page 100 false None
                   fresh 1 _ _ _ _ _ _ 1 _ _ _ _)).
  - eapply fetched_more; [reflexivity | vm_compute; reflexivity | apply fetched_none].
  - reflexivity.
  - reflexivity.
  - vm_compute. reflexivity.
Defined.

(** C9: the size a page request asks for, and when the pagination ends.
    In test mode, with [limit] posts or more collected, the iteration
    breaks without a request and the loop returns the posts collected;
    with fewer, the iteration sends one request, whose [limit] is the
    smaller of [limit] less the posts collected and the batch size. Outside
    test mode the iteration sends one request, whose [limit] is the batch
    size. A run that returns has ended at an absent link, or at the [limit]
    of the test mode, or at an iteration that raised. *)
Theorem page_request_size
    (server : list request -> request -> result response)
    (limit : Z) (is_test_mode : bool) (since : option string)
    (endpoint : string) (all_posts : list json) (st : state) :
  let collected := Z.of_nat (length all_posts) in
  let ps := page_params limit is_test_mode since all_posts in
  let out := get_user_posts_body server limit is_test_mode since endpoint (all_posts, st) in
  (if is_test_mode
   then
     if limit <=? collected
     then out = (inr Break, (all_posts, st))
          /\ forall fuel next_page,
               get_user_posts_loop server (S fuel) limit is_test_mode since
                 next_page (all_posts, st) = Some (all_posts, st)
     else sent (snd (snd out)) = (sent st ++ [api_request endpoint ps])%list
          /\ lookup_member "limit" ps = Some (JNum (Z.min (limit - collected) batch_size))
   else sent (snd (snd out)) = (sent st ++ [api_request endpoint ps])%list
        /\ lookup_member "limit" ps = Some (JNum batch_size))
  /\ forall fuel next_page ls',
       get_user_posts_loop server fuel limit is_test_mode since next_page (all_posts, st)
       = Some ls' ->
       loop_ends server limit is_test_mode since next_page (all_posts, st) ls'.
Proof.
  intros collected ps out. split; [| intros fuel next_page ls'; apply loop_returns].
  subst out ps collected.
  destruct is_test_mode.
  - destruct (limit <=? Z.of_nat (length all_posts)) eqn:Hle.
    + split; [apply body_break; rewrite Hle; reflexivity |].
      intros fuel next_page. simpl.
      destruct (loop_continues next_page); [| reflexivity].
      rewrite body_break by (rewrite Hle; reflexivity). reflexivity.
    + rewrite body_state by (rewrite Hle; reflexivity).
      rewrite make_api_request_sent. split; reflexivity.
  - rewrite body_state by reflexivity.
    rewrite make_api_request_sent. split; reflexivity.
Qed.

(** A run in test mode over two pages of two posts, for three posts: the
    second request asks for one post, and the run ends at the limit. *)
Lemma page_request_size_witness :
  exists ls',
    get_user_posts two_pages 5 3 true None fresh = Some ls'
    /\ map (fun r => lookup_member "limit" (params r)) (sent (snd ls'))
       = [Some (JNum 3); Some (JNum 1)]
    /\ loop_ends two_pages 3 true None (Some "me/threads") ([], fresh) ls'.
Proof.
  eexists. split; [vm_compute; reflexivity |]. split; [vm_compute; reflexivity |].
  apply (proj2 (page_request_size two_pages 3 true None "me/threads" [] fresh) 5%nat).
  vm_compute. reflexivity.
Defined.

(** ** The batch engine *)

Section Engine.

Variable server : list request -> request -> result response.

#[local] Arguments _make_api_request : simpl never.

(** A worker returns, whatever its request comes to: the bundle read, or
    the zero-filled one. It sends its one request and leaves the cache. *)
Lemma process_single_insight_spec post_id st :
  fst (_process_single_insight server post_id st)
  = inr (post_id, insights_of (server (sent st) (insights_request post_id)))
  /\ sent (snd (_process_single_insight server post_id st))
     = (sent st ++ [insights_request post_id])%list
  /\ _insights_cache (snd (_process_single_insight server post_id st))
     = _insights_cache st.
Proof.
  unfold _process_single_insight, insights_of, insights_read, insights_request.
  pose proof (make_api_request_result server (post_id +:+ "/insights")
                [("metric", JStr (join "," metrics))] st) as Hres.
  pose proof (make_api_request_sent server (post_id +:+ "/insights")
                [("metric", JStr (join "," metrics))] st) as Hsent.
  pose proof (make_api_request_cache server (post_id +:+ "/insights")
                [("metric", JStr (join "," metrics))] st) as Hcache.
  run.
  destruct (_make_api_request _ _ _ _) as [[e | resp] st']; simpl in *.
  - destruct (server _ _) as [e' | resp'].
    + simplify_eq. auto.
    + destruct (is_error_status _); simplify_eq; auto.
  - destruct (server _ _) as [e' | resp']; [discriminate |].
    destruct (is_error_status _); simplify_eq.
    destruct (response_json _) as [e | data]; simpl; [auto |].
    destruct (read_insights data); simpl; auto.
Qed.

(** The workers of a sub-batch. *)
Lemma workers_spec batch : forall st,
  exists st',
    mapM (fun post_id => submit (_process_single_insight server post_id)) batch st
    = (inr (map inr (fetched server (sent st) batch)), st')
    /\ sent st' = (sent st ++ map insights_request batch)%list
    /\ _insights_cache st' = _insights_cache st.
Proof.
  induction batch as [| post_id rest IH]; intros st; simpl.
  - exists st. rewrite app_nil_r. auto.
  - destruct (process_single_insight_spec post_id st) as (Hres & Hsent & Hcache).
    unfold bind at 1. unfold submit at 1.
    destruct (_process_single_insight server post_id st) as [r st1]; simpl in *.
    subst r.
    destruct (IH st1) as (st2 & Hrun & Hsent2 & Hcache2).
    unfold bind at 1. rewrite Hrun. exists st2. unfold ret. rewrite Hsent.
    split; [reflexivity |]. split; [| congruence].
    rewrite Hsent2, Hsent, <- app_assoc. reflexivity.
Qed.

Lemma fetched_length history post_ids :
  length (fetched server history post_ids) = length post_ids.
Proof.
  revert history. induction post_ids as [| post_id rest IH]; intros history; simpl;
    [reflexivity | rewrite IH; reflexivity].
Qed.

Lemma fetched_ids history post_ids :
  map fst (fetched server history post_ids) = post_ids.
Proof.
  revert history. induction post_ids as [| post_id rest IH]; intros history; simpl;
    [reflexivity | rewrite IH; reflexivity].
Qed.

Lemma fetched_app history ids1 ids2 :
  fetched server history (ids1 ++ ids2)
  = (fetched server history ids1
     ++ fetched server (history ++ map insights_request ids1) ids2)%list.
Proof.
  revert history. induction ids1 as [| post_id rest IH]; intros history; simpl.
  - rewrite app_nil_r. reflexivity.
  - rewrite IH, <- app_assoc. reflexivity.
Qed.

(** The result of the worker at position [i] is the bundle of the outcome of
    its request, made after the requests of the workers before it. *)
Lemma fetched_lookup post_ids : forall history i post_id,
  post_ids !! i = Some post_id ->
  fetched server history post_ids !! i
  = Some (post_id,
          insights_of (server (history ++ map insights_request (take i post_ids))
                         (insights_request post_id))).
Proof.
  induction post_ids as [| p rest IH]; intros history i post_id Hi; [discriminate |].
  destruct i as [| i]; simpl in *.
  - injection Hi as ->. rewrite app_nil_r. reflexivity.
  - rewrite (IH _ _ _ Hi), <- app_assoc. reflexivity.
Qed.

(** The collection of the results of a sub-batch: each result is stored;
    no request is sent; without the cache the state is left as it is. *)
Lemma collect_spec use_cache results : forall post_ids insights_map st,
  length post_ids = length results ->
  exists st',
    foldM (fun _ fp => collect use_cache fp) tt (zip (map inr results) post_ids)
      (insights_map, st)
    = (inr tt, (store insights_map results, st'))
    /\ sent st' = sent st
    /\ (use_cache = false -> st' = st).
Proof.
  induction results as [| [post_id insights] rest IH];
    intros post_ids insights_map st Hlen.
  - exists st. simpl. auto.
  - destruct post_ids as [| p post_ids]; [discriminate |].
    injection Hlen as Hlen. simpl.
    unfold bind at 1. unfold collect at 1. unfold _update_cache. run.
    destruct use_cache; simpl.
    + destruct (IH post_ids (<[post_id := insights]> insights_map)
                  (set_cache
                     (<[post_id := {| data := insights; timestamp := now st |}]>
                        (_insights_cache st)) st) Hlen)
        as (st' & Hrun & Hsent & _).
      exists st'. rewrite Hrun. split; [reflexivity |]. split; [exact Hsent | discriminate].
    + destruct (IH post_ids (<[post_id := insights]> insights_map) st Hlen)
        as (st' & Hrun & Hsent & Hsame).
      exists st'. rewrite Hrun. auto.
Qed.

(** A sub-batch. *)
Lemma process_batch_spec use_cache batch insights_map st :
  exists st',
    process_batch server use_cache batch (insights_map, st)
    = (inr tt, (store insights_map (fetched server (sent st) batch), st'))
    /\ sent st' = (sent st ++ map insights_request batch)%list
    /\ (use_cache = false -> _insights_cache st' = _insights_cache st).
Proof.
  unfold process_batch.
  destruct (workers_spec batch st) as (st1 & Hrun & Hsent & Hcache).
  unfold bind, on_snd. simpl. rewrite Hrun. simpl.
  destruct (collect_spec use_cache (fetched server (sent st) batch) batch insights_map st1)
    as (st2 & Hrun2 & Hsent2 & Hsame); [rewrite fetched_length; reflexivity |].
  exists st2. split; [exact Hrun2 |]. split; [congruence |].
  intros Hno. rewrite (Hsame Hno). exact Hcache.
Qed.

Lemma store_app insights_map results1 results2 :
  store insights_map (results1 ++ results2)
  = store (store insights_map results1) results2.
Proof. unfold store. apply foldl_app. Qed.

(** The sub-batches, one after the other. *)
Lemma process_batches_spec use_cache batches : forall insights_map st,
  exists st',
    foldM (fun _ batch => process_batch server use_cache batch) tt batches
      (insights_map, st)
    = (inr tt, (store insights_map (fetched server (sent st) (concat batches)), st'))
    /\ sent st' = (sent st ++ map insights_request (concat batches))%list
    /\ (use_cache = false -> _insights_cache st' = _insights_cache st).
Proof.
  induction batches as [| batch rest IH]; intros insights_map st; simpl.
  - exists st. rewrite app_nil_r. auto.
  - destruct (process_batch_spec use_cache batch insights_map st)
      as (st1 & Hrun & Hsent & Hcache).
    unfold bind at 1. rewrite Hrun.
    destruct (IH (store insights_map (fetched server (sent st) batch)) st1)
      as (st2 & Hrun2 & Hsent2 & Hcache2).
    exists st2. rewrite Hrun2, Hsent, fetched_app, store_app.
    split; [reflexivity |]. split.
    + rewrite Hsent2, Hsent, map_app, app_assoc. reflexivity.
    + intros Hno. rewrite (Hcache2 Hno). auto.
Qed.

End Engine.

(** The slices of a list make up the list. *)
Lemma slices_concat n fuel : forall post_ids,
  (length post_ids <= fuel)%nat ->
  concat (slices fuel (S n) post_ids) = post_ids.
Proof.
  induction fuel as [| fuel IH]; intros post_ids Hlen.
  - destruct post_ids; [reflexivity | simpl in Hlen; lia].
  - destruct post_ids as [| p rest]; [reflexivity |].
    cbn [slices concat]. rewrite IH.
    + apply take_drop.
    + rewrite length_drop. simpl in *. lia.
Qed.

Lemma sub_batches_concat post_ids : concat (sub_batches post_ids) = post_ids.
Proof. apply slices_concat. reflexivity. Qed.

(** No sub-batch is larger than the batch size of the insights. *)
Lemma sub_batches_bounded post_ids :
  Forall (fun batch => (length batch <= insights_batch_size)%nat) (sub_batches post_ids).
Proof.
  unfold sub_batches. generalize (length post_ids) as fuel. intros fuel.
  revert post_ids. induction fuel as [| fuel IH]; intros post_ids; simpl.
  - destruct post_ids; constructor.
  - destruct post_ids as [| p rest]; constructor.
    + rewrite length_take. lia.
    + apply IH.
Qed.

(** ** The cache and the map of a call *)

Lemma filter_agree {A} (P Q : A -> Prop) `{!forall x, Decision (P x)}
    `{!forall x, Decision (Q x)} (l : list A) :
  (forall x, x ∈ l -> P x <-> Q x) -> filter P l = filter Q l.
Proof.
  induction l as [| x l IH]; intros Hpq; [reflexivity |].
  rewrite !filter_cons, IH by (intros y Hy; apply Hpq; right; exact Hy).
  destruct (decide (P x)) as [Hp | Hp], (decide (Q x)) as [Hq | Hq]; try reflexivity.
  - exfalso. apply Hq, Hpq; [left | exact Hp].
  - exfalso. apply Hp, Hpq; [left | exact Hq].
Qed.

(** Hits and misses share out the IDs. *)
Lemma hits_and_misses (cache : gmap string cache_entry) (post_ids : list string) :
  (length (filter (fun post_id => is_Some (cache !! post_id)) post_ids)
   + length (filter (fun post_id => cache !! post_id = None) post_ids)
   = length post_ids)%nat.
Proof.
  induction post_ids as [| p rest IH]; [reflexivity |].
  rewrite !filter_cons.
  destruct (decide (is_Some (cache !! p))) as [Hs | Hs],
           (decide (cache !! p = None)) as [Hn | Hn]; simpl.
  - rewrite Hn in Hs. destruct Hs; discriminate.
  - lia.
  - lia.
  - destruct (cache !! p); [exfalso; apply Hs; eauto | congruence].
Qed.

Section CachedPosts.

Variable cache : gmap string cache_entry.

Lemma cached_fold_lookup post_ids : forall (d : gmap string bundle) id,
  foldl
    (fun d post_id =>
       match cache !! post_id with
       | Some entry => <[post_id := data entry]> d
       | None => d
       end) d post_ids !! id
  = match cache !! id with
    | Some entry => if decide (id ∈ post_ids) then Some (data entry) else d !! id
    | None => d !! id
    end.
Proof.
  induction post_ids as [| p rest IH]; intros d id; cbn [foldl].
  - destruct (cache !! id); [rewrite decide_False by set_solver |]; reflexivity.
  - rewrite IH. destruct (cache !! id) as [entry |] eqn:Hid.
    + destruct (decide (id ∈ rest)).
      * rewrite decide_True by set_solver. reflexivity.
      * destruct (decide (id = p)) as [-> | Hne].
        -- rewrite Hid, lookup_insert_eq, decide_True by set_solver. reflexivity.
        -- rewrite decide_False by set_solver.
           destruct (cache !! p); [rewrite lookup_insert_ne by congruence |]; reflexivity.
    + destruct (cache !! p) eqn:Hp; [| reflexivity].
      rewrite lookup_insert_ne; [reflexivity |]. intros ->. congruence.
Qed.

(** The hits of a call, as the map the call starts from. *)
Lemma cached_posts_of_lookup post_ids id :
  cached_posts_of cache post_ids !! id
  = if decide (id ∈ post_ids) then data <$> cache !! id else None.
Proof.
  unfold cached_posts_of. rewrite cached_fold_lookup, lookup_empty.
  destruct (cache !! id), (decide (id ∈ post_ids)); reflexivity.
Qed.

(** The IDs left to fetch are those without an entry in the cache. *)
Lemma uncached_are_misses post_ids :
  filter (fun post_id => cached_posts_of cache post_ids !! post_id = None) post_ids
  = filter (fun post_id => cache !! post_id = None) post_ids.
Proof.
  apply filter_agree. intros id Hid.
  rewrite cached_posts_of_lookup, decide_True by exact Hid.
  apply fmap_None.
Qed.

End CachedPosts.

(** What [store] leaves at a key no result is for. *)
Lemma store_lookup_other results : forall (insights_map : gmap string bundle) id,
  id ∉ map fst results ->
  store insights_map results !! id = insights_map !! id.
Proof.
  induction results as [| [k v] rest IH]; intros insights_map id Hid; [reflexivity |].
  unfold store in *. simpl in *. rewrite IH by set_solver.
  apply lookup_insert_ne. set_solver.
Qed.

(** What [store] leaves at the key of a result, when no other result is for
    that key. *)
Lemma store_lookup_once results : forall (insights_map : gmap string bundle) i id insights,
  results !! i = Some (id, insights) ->
  (forall j, map fst results !! j = Some id -> j = i) ->
  store insights_map results !! id = Some insights.
Proof.
  induction results as [| [k v] rest IH]; intros insights_map i id insights Hi Honce;
    [discriminate |].
  destruct i as [| i]; simpl in Hi.
  - injection Hi as -> ->. change (store insights_map ((id, insights) :: rest))
      with (store (<[id := insights]> insights_map) rest).
    rewrite store_lookup_other; [apply lookup_insert_eq |].
    intros Hin. apply list_elem_of_lookup in Hin as [j Hj].
    specialize (Honce (S j) Hj). discriminate.
  - change (store insights_map ((k, v) :: rest))
      with (store (<[k := v]> insights_map) rest).
    apply (IH _ i); [exact Hi |].
    intros j Hj. specialize (Honce (S j) Hj). lia.
Qed.

(** The keys [store] leaves. *)
Lemma store_dom results : forall (insights_map : gmap string bundle),
  dom (store insights_map results) = dom insights_map ∪ list_to_set (map fst results).
Proof.
  induction results as [| [k v] rest IH]; intros insights_map.
  - simpl. set_solver.
  - change (store insights_map ((k, v) :: rest))
      with (store (<[k := v]> insights_map) rest).
    rewrite IH, dom_insert_L. simpl. set_solver.
Qed.

Lemma cached_posts_of_dom (cache : gmap string cache_entry) post_ids :
  dom (cached_posts_of cache post_ids)
  = list_to_set (filter (fun post_id => is_Some (cache !! post_id)) post_ids).
Proof.
  apply set_eq. intros id.
  rewrite elem_of_dom, cached_posts_of_lookup, elem_of_list_to_set, list_elem_of_filter.
  destruct (decide (id ∈ post_ids)) as [Hin | Hin].
  - rewrite fmap_is_Some. tauto.
  - split; [intros [? ?]; discriminate | tauto].
Qed.

Section Run.

Variable server : list request -> request -> result response.

(** A call of [get_post_insights] returns: its map is the hits, with the
    bundles fetched for the misses stored over them; it sends the requests
    of the misses, in their order, and no other; without the cache it
    leaves the cache as it is. *)
Lemma get_post_insights_run post_ids use_cache st :
  let misses := cache_misses use_cache (_insights_cache st) (requested post_ids) in
  exists st',
    get_post_insights server post_ids use_cache st
    = (inr (store
              (if use_cache
               then cached_posts_of (_insights_cache st) (requested post_ids)
               else ∅)
              (fetched server (sent st) misses)), st')
    /\ sent st' = (sent st ++ map insights_request misses)%list
    /\ (use_cache = false -> _insights_cache st' = _insights_cache st).
Proof.
  intros misses. subst misses. unfold get_post_insights, cache_misses.
  fold (requested post_ids).
  destruct use_cache.
  - rewrite uncached_are_misses, (right_id_L ∅ (∪)).
    destruct (process_batches_spec server true
                (sub_batches (filter (fun post_id => _insights_cache st !! post_id = None)
                                (requested post_ids)))
                (cached_posts_of (_insights_cache st) (requested post_ids)) st)
      as (st' & Hrun & Hsent & Hcache).
    rewrite sub_batches_concat in *. exists st'. rewrite Hrun. auto.
  - destruct (process_batches_spec server false (sub_batches (requested post_ids)) ∅ st)
      as (st' & Hrun & Hsent & Hcache).
    rewrite sub_batches_concat in *. exists st'. rewrite Hrun. auto.
Qed.

End Run.

(** ** The claims on the batch engine *)

(** An entry of the cache is served from memory at any age: the call sends
    no request and leaves the state as it is. *)
Lemma cached_entry_served_at_any_age
    (server : list request -> request -> result response)
    (post_id : string) (entry : cache_entry) (st : state) :
  _insights_cache st !! post_id = Some entry ->
  get_post_insights server (inl post_id) true st
  = (inr {[post_id := data entry]}, st).
Proof.
  intros Hentry. unfold get_post_insights, cached_posts_of. cbn [foldl].
  rewrite Hentry, (right_id_L ∅ (∪)), filter_cons.
  rewrite decide_False by (rewrite lookup_insert_eq; discriminate).
  rewrite filter_nil. reflexivity.
Qed.

(** C1 fails on the code. [get_post_insights] takes an ID for cached when
    the cache has an entry for it, and does not look at the age of the
    entry; [_should_update_cache], which compares the age with
    [cache_duration], is not called. Here the entry of the post [a] is twice
    [cache_duration] old, [_should_update_cache] asks for an update, and the
    call returns the old bundle without a request. *)
Lemma stale_entry_served_from_cache :
  _should_update_cache "a" stale = true
  /\ forall server : list request -> request -> result response,
       get_post_insights server (inr ["a"]) true stale = (inr {["a" := seen]}, stale).
Proof.
  split; [reflexivity |].
  intros server.
  exact (cached_entry_served_at_any_age server "a" {| data := seen; timestamp := 0 |}
           stale eq_refl).
Qed.

(** What the code does for distinct IDs: it sends a request for each ID
    that has no entry in the cache, and for no other, so as many requests as
    there are IDs less those with an entry, of any age; the map it returns
    has an entry for each of the IDs and for nothing else. Without the cache
    every ID is fetched. *)
Lemma get_post_insights_fetches_ids_without_entry
    (server : list request -> request -> result response)
    (post_ids : list string) (use_cache : bool) (st : state) :
  NoDup post_ids ->
  let with_entry := cache_hits use_cache (_insights_cache st) post_ids in
  let misses := cache_misses use_cache (_insights_cache st) post_ids in
  exists insights_map st',
    get_post_insights server (inr post_ids) use_cache st = (inr insights_map, st')
    /\ sent st' = (sent st ++ map insights_request misses)%list
    /\ length misses = (length post_ids - length with_entry)%nat
    /\ dom insights_map = list_to_set post_ids
    /\ size insights_map = length post_ids.
Proof.
  intros Hnodup with_entry misses.
  destruct (get_post_insights_run server (inr post_ids) use_cache st)
    as (st' & Hrun & Hsent & _).
  cbn [requested] in *. fold misses in Hrun, Hsent.
  eexists _, st'. split; [exact Hrun |]. split; [exact Hsent |].
  assert (Hdom : dom (store
                        (if use_cache
                         then cached_posts_of (_insights_cache st) post_ids
                         else ∅) (fetched server (sent st) misses))
                 = list_to_set post_ids).
  { rewrite store_dom, fetched_ids. subst misses. unfold cache_misses.
    destruct use_cache.
    - rewrite cached_posts_of_dom. apply set_eq. intros id.
      rewrite elem_of_union, !elem_of_list_to_set, !list_elem_of_filter.
      destruct (_insights_cache st !! id) eqn:Hid.
      + split; [intros [[_ ?] | [? ?]]; [assumption | discriminate] |].
        intros Hin. left. split; [eauto | exact Hin].
      + split; [intros [[[? ?] _] | [_ ?]]; [discriminate | assumption] |].
        intros Hin. right. split; [reflexivity | exact Hin].
    - rewrite dom_empty_L. set_solver. }
  split; [| split; [exact Hdom |]].
  - subst with_entry misses. unfold cache_hits, cache_misses. destruct use_cache; simpl.
    + pose proof (hits_and_misses (_insights_cache st) post_ids). lia.
    + lia.
  - rewrite <- size_dom, Hdom. apply size_list_to_set. exact Hnodup.
Qed.

(** C2 fails on the code, by the defect that makes C1 fail: the age of an
    entry of the cache is not looked at. The IDs [a], [b] and [c] are
    distinct, and none of them is a cache hit at the state [stale]: [b] and
    [c] have no entry, and the entry of [a] is twice [cache_duration] old, so
    [_should_update_cache] asks for an update of each of the three. With
    N = 3 and K = 0 the call is to make three fetch attempts. It makes two,
    for [b] and for [c]; the entry of [a] in its map is the old bundle. (The
    map does have one entry for each of the three IDs.) *)
Lemma stale_entry_counted_as_hit :
  let post_ids := ["a"; "b"; "c"] in
  let hits := filter (fun post_id => _should_update_cache post_id stale = false) post_ids in
  NoDup post_ids
  /\ length post_ids = 3%nat
  /\ length hits = 0%nat
  /\ exists insights_map st',
       get_post_insights b_times_out (inr post_ids) true stale = (inr insights_map, st')
       /\ sent st' = [insights_request "b"; insights_request "c"]
       /\ length (sent st') = 2%nat
       /\ insights_map !! "a" = Some seen
       /\ size insights_map = 3%nat.
Proof.
  intros post_ids hits.
  assert (Hnodup : NoDup post_ids) by (repeat constructor; set_solver).
  split; [exact Hnodup |]. split; [reflexivity |]. split; [reflexivity |].
  destruct (get_post_insights_run b_times_out (inr post_ids) true stale)
    as (st' & Hrun & Hsent & _).
  assert (Hmisses : cache_misses true (_insights_cache stale) (requested (inr post_ids))
                    = ["b"; "c"]) by reflexivity.
  rewrite Hmisses in Hrun, Hsent.
  eexists _, st'. split; [exact Hrun |]. split; [exact Hsent |].
  split; [rewrite Hsent; reflexivity |]. split.
  - rewrite store_lookup_other by (rewrite fetched_ids; set_solver).
    rewrite cached_posts_of_lookup. reflexivity.
  - destruct (get_post_insights_fetches_ids_without_entry b_times_out post_ids true stale
                Hnodup) as (insights_map & st'' & Hrun' & _ & _ & _ & Hsize).
    pose proof (eq_trans (eq_sym Hrun) Hrun') as Hsame.
    transitivity (size insights_map); [f_equal; congruence | exact Hsize].
Qed.

(** Every metric of the zero-filled bundle is 0. *)
Lemma zero_insights_lookup metric :
  metric ∈ metrics -> zero_insights !! HStr metric = Some (JNum 0).
Proof.
  unfold metrics. rewrite !elem_of_cons, elem_of_nil.
  intros [-> | [-> | [-> | [-> | [-> | [-> | []]]]]]]; reflexivity.
Qed.

(** C7: a call returns, whatever the requests of its workers come to. For
    an ID fetched once, the entry of the map it returns is the bundle read
    from the answer to the request of that ID, or the zero-filled bundle
    when that request or the reading of its answer raised: the entry of an
    ID is decided by the outcome of its own request, not by those of the
    other IDs. *)
Theorem failed_fetch_is_zero_filled
    (server : list request -> request -> result response)
    (post_ids : string + list string) (use_cache : bool) (st : state)
    (i : nat) (post_id : string) :
  let misses := cache_misses use_cache (_insights_cache st) (requested post_ids) in
  let outcome :=
    server (sent st ++ map insights_request (take i misses))%list
      (insights_request post_id) in
  misses !! i = Some post_id ->
  (forall j, misses !! j = Some post_id -> j = i) ->
  exists insights_map st',
    get_post_insights server post_ids use_cache st = (inr insights_map, st')
    /\ insights_map !! post_id
       = Some match insights_read outcome with
              | inr insights => insights
              | inl _ => zero_insights
              end
    /\ forall metric, metric ∈ metrics -> zero_insights !! HStr metric = Some (JNum 0).
Proof.
  intros misses outcome Hi Honce.
  destruct (get_post_insights_run server post_ids use_cache st)
    as (st' & Hrun & _ & _).
  fold misses in Hrun.
  eexists _, st'. split; [exact Hrun |]. split; [| apply zero_insights_lookup].
  eapply store_lookup_once.
  - apply fetched_lookup. exact Hi.
  - rewrite fetched_ids. exact Honce.
Qed.

(** The posts [a], [b] and [c], the request for [b] timing out: the entry
    of [b] is zero-filled, and the call returns. *)
Lemma failed_fetch_is_zero_filled_witness :
  exists insights_map st',
    get_post_insights b_times_out (inr ["a"; "b"; "c"]) true fresh
    = (inr insights_map, st')
    /\ insights_map !! "b" = Some zero_insights.
Proof.
  destruct (failed_fetch_is_zero_filled b_times_out (inr ["a"; "b"; "c"]) true fresh
              1 "b") as (insights_map & st' & Hrun & Hb & _).
  - reflexivity.
  - intros [| [| [| j]]]; simpl; try discriminate; reflexivity.
  - exists insights_map, st'. split; [exact Hrun | exact Hb].
Defined.

(** C10: without the cache, a call sends the request of every ID it is
    given, its map is made of the bundles fetched alone, and the cache is
    after the call what it was before. *)
Theorem get_post_insights_without_cache
    (server : list request -> request -> result response)
    (post_ids : string + list string) (st : state) :
  exists st',
    get_post_insights server post_ids false st
    = (inr (store ∅ (fetched server (sent st) (requested post_ids))), st')
    /\ sent st' = (sent st ++ map insights_request (requested post_ids))%list
    /\ _insights_cache st' = _insights_cache st.
Proof.
  destruct (get_post_insights_run server post_ids false st)
    as (st' & Hrun & Hsent & Hcache).
  exists st'. split; [exact Hrun |]. split; [exact Hsent | apply Hcache; reflexivity].
Qed.

(** The example of the specification: views 100 and likes 10 for [a], a
    request that times out for [b], views 50 and likes 5 for [c]. *)
Example insights_of_a_b_c :
  let insights_map :=
    match fst (get_post_insights b_times_out (inr ["a"; "b"; "c"]) true fresh) with
    | inr insights_map => insights_map
    | inl _ => ∅
    end in
  let metric post_id name :=
    match insights_map !! post_id with
    | Some insights => insights !! HStr name
    | None => None
    end in
  map (metric "a") ["views"; "likes"; "replies"] = [Some (JNum 100); Some (JNum 10); Some (JNum 0)]
  /\ map (metric "b") ["views"; "likes"; "replies"] = [Some (JNum 0); Some (JNum 0); Some (JNum 0)]
  /\ map (metric "c") ["views"; "likes"; "replies"] = [Some (JNum 50); Some (JNum 5); Some (JNum 0)].
Proof. vm_compute. repeat split. Qed.

(** ** Further properties of the client *)

Import MoreNotions.

(** The number of slices of a list. *)
Lemma slices_count fuel : forall post_ids : list string,
  (length post_ids <= fuel)%nat ->
  length (slices fuel 10 post_ids) = ((length post_ids + 9) / 10)%nat.
Proof.
  induction fuel as [| fuel IH]; intros post_ids Hlen.
  - destruct post_ids; [reflexivity | simpl in Hlen; lia].
  - destruct post_ids as [| p rest]; [reflexivity |].
    cbn [slices length]. rewrite IH by (rewrite length_drop; simpl in *; lia).
    rewrite length_drop. cbn [length].
    destruct (decide (10 <= S (length rest))%nat) as [Hge | Hlt].
    + replace (S (length rest) + 9)%nat with ((S (length rest) - 10 + 9) + 1 * 10)%nat by lia.
      rewrite Nat.div_add by lia. lia.
    + replace (S (length rest) - 10)%nat with 0%nat by lia.
      assert (Hone : ((S (length rest) + 9) / 10 = 1)%nat).
      { symmetry. apply (Nat.div_unique _ 10 1 (length rest)%nat); lia. }
      rewrite Hone. reflexivity.
Qed.

(** X1: the sub-batches of [get_post_insights] are the IDs to fetch, cut in
    order into slices of one to ten IDs: no ID is lost, added or moved, no
    slice is empty or longer than the batch size of the insights, and there
    are as many slices as tens in the IDs, rounded up. *)
Theorem sub_batches_partition (post_ids : list string) :
  concat (sub_batches post_ids) = post_ids
  /\ Forall (fun batch => (1 <= length batch <= insights_batch_size)%nat)
       (sub_batches post_ids)
  /\ length (sub_batches post_ids) = ((length post_ids + 9) / 10)%nat.
Proof.
  split; [apply sub_batches_concat |]. split; [| apply slices_count; reflexivity].
  unfold sub_batches. generalize (length post_ids) as fuel. intros fuel.
  revert post_ids. induction fuel as [| fuel IH]; intros post_ids; simpl.
  - destruct post_ids; constructor.
  - destruct post_ids as [| p rest]; constructor; [| apply IH].
    rewrite length_take. cbn [length]. unfold insights_batch_size. lia.
Qed.

(** Storing a metric keeps the metrics a bundle has. *)
Lemma set_insight_keeps insights metric value insights' key :
  set_insight insights metric value = inr insights' ->
  is_Some (insights !! key) -> is_Some (insights' !! key).
Proof.
  unfold set_insight, rbind.
  destruct (getitem metric "name") as [e | name]; [discriminate |].
  destruct (hash_key name) as [e | k]; [discriminate |].
  intros [= <-] Hkey. rewrite lookup_insert_is_Some'. right. exact Hkey.
Qed.

Lemma read_metric_keeps insights metric insights' key :
  read_metric insights metric = inr insights' ->
  is_Some (insights !! key) -> is_Some (insights' !! key).
Proof.
  unfold read_metric, rbind.
  repeat match goal with
         | |- context [match ?x with _ => _ end] => destruct x eqn:?; try discriminate
         | |- context [if ?b then _ else _] => destruct b eqn:?; try discriminate
         end;
    first [apply set_insight_keeps | intros [= <-]; exact id].
Qed.

Lemma rfold_read_metric_keeps metrics_data : forall insights insights' key,
  rfold read_metric insights metrics_data = inr insights' ->
  is_Some (insights !! key) -> is_Some (insights' !! key).
Proof.
  induction metrics_data as [| metric rest IH]; intros insights insights' key; simpl.
  - intros [= <-]. exact id.
  - unfold rbind at 1. destruct (read_metric insights metric) as [e | mid] eqn:Hm;
      [discriminate |].
    intros Hrest Hkey. eapply IH; [exact Hrest |].
    eapply read_metric_keeps; eassumption.
Qed.

Lemma zero_insights_has metric : metric ∈ metrics -> is_Some (zero_insights !! HStr metric).
Proof. intros Hin. rewrite (zero_insights_lookup metric Hin). eauto. Qed.

Lemma read_insights_keeps data insights metric :
  read_insights data = inr insights ->
  metric ∈ metrics -> is_Some (insights !! HStr metric).
Proof.
  unfold read_insights, rbind. intros Hread Hin.
  destruct (if truthy data then contains data "data" else inr false) as [e | has];
    [discriminate |].
  destruct has.
  - destruct (getitem data "data") as [e | entries]; [discriminate |].
    destruct (iterate entries) as [e | metrics_data]; [discriminate |].
    eapply rfold_read_metric_keeps; [exact Hread | apply zero_insights_has, Hin].
  - injection Hread as <-. apply zero_insights_has, Hin.
Qed.

Lemma insights_of_has outcome metric :
  metric ∈ metrics -> is_Some (insights_of outcome !! HStr metric).
Proof.
  intros Hin. unfold insights_of, insights_read.
  destruct outcome as [e | resp]; [apply zero_insights_has, Hin |].
  destruct (is_error_status (status_code resp)); [apply zero_insights_has, Hin |].
  destruct (let? data := response_json resp in read_insights data) as [e | insights] eqn:Hread;
    [apply zero_insights_has, Hin |].
  unfold rbind in Hread. destruct (response_json resp) as [e | data]; [discriminate |].
  eapply read_insights_keeps; eassumption.
Qed.

(** Storing a metric leaves the value under every other name. *)
Lemma set_insight_other insights entry value insights' metric :
  set_insight insights entry value = inr insights' ->
  ~ names metric entry ->
  insights' !! HStr metric = insights !! HStr metric.
Proof.
  unfold set_insight, names, rbind.
  destruct (getitem entry "name") as [e | name]; [discriminate |].
  destruct (hash_key name) as [e | key] eqn:Hkey; [discriminate |].
  intros [= <-] Hname. apply lookup_insert_ne. intros ->.
  destruct name; simpl in Hkey; simplify_eq; try (apply Hname; reflexivity).
Qed.

Lemma read_metric_other insights entry insights' metric :
  read_metric insights entry = inr insights' ->
  ~ names metric entry ->
  insights' !! HStr metric = insights !! HStr metric.
Proof.
  unfold read_metric, rbind.
  repeat match goal with
         | |- context [match ?x with _ => _ end] => destruct x eqn:?; try discriminate
         | |- context [if ?b then _ else _] => destruct b eqn:?; try discriminate
         end;
    first [apply set_insight_other | intros [= <-]; reflexivity].
Qed.

Lemma rfold_read_metric_other metrics_data : forall insights insights' metric,
  rfold read_metric insights metrics_data = inr insights' ->
  Forall (fun entry => ~ names metric entry) metrics_data ->
  insights' !! HStr metric = insights !! HStr metric.
Proof.
  induction metrics_data as [| entry rest IH]; intros insights insights' metric; simpl.
  - intros [= <-] _. reflexivity.
  - unfold rbind at 1. destruct (read_metric insights entry) as [e | mid] eqn:Hm;
      [discriminate |].
    intros Hrest Hout. inversion Hout as [| ? ? Hentry Hothers]; subst.
    rewrite (IH _ _ _ Hrest Hothers). eapply read_metric_other; eassumption.
Qed.

(** A bundle that is not read from the answer is the zero-filled one. *)
Lemma insights_of_failure outcome e :
  insights_read outcome = inl e -> insights_of outcome = zero_insights.
Proof. unfold insights_of. intros ->. reflexivity. Qed.

(** A metric no entry of the answer names has the value 0. *)
Lemma insights_of_left_out outcome metric :
  metric ∈ metrics ->
  Forall (fun entry => ~ names metric entry) (entries_read outcome) ->
  insights_of outcome !! HStr metric = Some (JNum 0).
Proof.
  intros Hin. unfold insights_of, insights_read, entries_read, read_insights, rbind.
  destruct outcome as [e | resp]; [intros _; apply zero_insights_lookup, Hin |].
  destruct (is_error_status (status_code resp));
    [intros _; apply zero_insights_lookup, Hin |].
  destruct (response_json resp) as [e | data];
    [intros _; apply zero_insights_lookup, Hin |].
  destruct (if truthy data then contains data "data" else inr false) as [e | has_data];
    [intros _; apply zero_insights_lookup, Hin |].
  destruct has_data; [| intros _; apply zero_insights_lookup, Hin].
  destruct (getitem data "data") as [e | entries];
    [intros _; apply zero_insights_lookup, Hin |].
  destruct (iterate entries) as [e | metrics_data];
    [intros _; apply zero_insights_lookup, Hin |].
  destruct (rfold read_metric zero_insights metrics_data) as [e | insights] eqn:Hread;
    [intros _; apply zero_insights_lookup, Hin |].
  intros Hout. rewrite (rfold_read_metric_other _ _ _ _ Hread Hout).
  apply zero_insights_lookup, Hin.
Qed.

(** X2: the bundle a worker returns has a value for each of the six
    metrics of the client, whatever the server answers. A metric that no
    entry of the answer names keeps the 0 it was given at the start. When
    the request fails or its answer cannot be read, the bundle is the
    zero-filled one, in which each of the six metrics is 0. *)
Theorem worker_bundle_has_every_metric
    (server : list request -> request -> result response)
    (post_id : string) (st : state) :
  let outcome := server (sent st) (insights_request post_id) in
  exists insights,
    fst (_process_single_insight server post_id st) = inr (post_id, insights)
    /\ (forall metric, metric ∈ metrics -> is_Some (insights !! HStr metric))
    /\ (forall metric,
          metric ∈ metrics ->
          Forall (fun entry => ~ names metric entry) (entries_read outcome) ->
          insights !! HStr metric = Some (JNum 0))
    /\ (forall e,
          insights_read outcome = inl e ->
          insights = zero_insights
          /\ forall metric, metric ∈ metrics -> insights !! HStr metric = Some (JNum 0)).
Proof.
  intros outcome. subst outcome.
  destruct (process_single_insight_spec server post_id st) as (Hres & _ & _).
  eexists. split; [exact Hres |]. split; [| split].
  - intros metric. apply insights_of_has.
  - intros metric. apply insights_of_left_out.
  - intros e Hfails. rewrite (insights_of_failure _ _ Hfails).
    split; [reflexivity | apply zero_insights_lookup].
Qed.

(** The answer for the post [a] names the views and the likes: the replies
    are 0 in the bundle of the worker. The request for the post [b] times
    out: its bundle is the zero-filled one. *)
Lemma worker_bundle_has_every_metric_witness :
  (exists insights,
     fst (_process_single_insight b_times_out "a" fresh) = inr ("a", insights)
     /\ insights !! HStr "views" = Some (JNum 100)
     /\ insights !! HStr "replies" = Some (JNum 0))
  /\ fst (_process_single_insight b_times_out "b" fresh) = inr ("b", zero_insights).
Proof.
  split.
  - destruct (worker_bundle_has_every_metric b_times_out "a" fresh)
      as (insights & Hrun & _ & Hout & _).
    exists insights. split; [exact Hrun |]. split.
    + rewrite (proj1 (process_single_insight_spec b_times_out "a" fresh)) in Hrun.
      injection Hrun as <-. vm_compute. reflexivity.
    + apply Hout; [set_solver |].
      repeat constructor; unfold names; simpl; discriminate.
  - destruct (worker_bundle_has_every_metric b_times_out "b" fresh)
      as (insights & Hrun & _ & _ & Hfails).
    destruct (Hfails (RequestException "timed out") eq_refl) as [-> _].
    exact Hrun.
Defined.

(** X3: an entry written by [_update_cache] is due for an update, by
    [_should_update_cache], exactly when more than [cache_duration] has gone
    by since it was written; an ID without an entry is always due. *)
Theorem cache_entry_due_after_duration
    (post_id : string) (insights : bundle) (st later : state) :
  _insights_cache later !! post_id
  = _insights_cache (snd (_update_cache post_id insights st)) !! post_id ->
  _should_update_cache post_id later = (cache_duration <? now later - now st)
  /\ forall other st0,
       _insights_cache st0 !! other = None -> _should_update_cache other st0 = true.
Proof.
  intros Hsame. split.
  - unfold _should_update_cache. rewrite Hsame. unfold _update_cache, modify. simpl.
    rewrite lookup_insert_eq. reflexivity.
  - intros other st0 Hnone. unfold _should_update_cache. rewrite Hnone. reflexivity.
Qed.

(** An entry written at time 0 is not due one hour later, and is due one
    millisecond after that. *)
Lemma cache_entry_due_after_duration_witness :
  _should_update_cache "a"
    (snd (time_sleep cache_duration (snd (_update_cache "a" seen fresh)))) = false
  /\ _should_update_cache "a"
       (snd (time_sleep (cache_duration + 1) (snd (_update_cache "a" seen fresh)))) = true.
Proof.
  split.
  - exact (proj1 (cache_entry_due_after_duration "a" seen fresh
                    (snd (time_sleep cache_duration (snd (_update_cache "a" seen fresh))))
                    eq_refl)).
  - exact (proj1 (cache_entry_due_after_duration "a" seen fresh
                    (snd (time_sleep (cache_duration + 1)
                            (snd (_update_cache "a" seen fresh))))
                    eq_refl)).
Defined.

(** X4: in test mode, with a [limit] of zero or less, [get_user_posts]
    returns no post and sends no request. *)
Theorem get_user_posts_without_limit
    (server : list request -> request -> result response)
    (fuel : nat) (limit : Z) (since : option string) (st : state) :
  limit <= 0 ->
  get_user_posts server (S fuel) limit true since st = Some ([], st).
Proof.
  intros Hlimit. unfold get_user_posts. simpl.
  rewrite body_break; [reflexivity |].
  simpl. apply Z.leb_le. exact Hlimit.
Qed.

Lemma get_user_posts_without_limit_witness :
  get_user_posts two_pages 1 0 true None fresh = Some ([], fresh).
Proof. apply (get_user_posts_without_limit two_pages 0 0 None fresh). lia. Defined.

(** The request of an iteration that does not break. *)
Lemma page_params_ok limit is_test_mode since endpoint all_posts :
  is_test_mode && (limit <=? Z.of_nat (length all_posts)) = false ->
  page_request_ok limit is_test_mode since
    (api_request endpoint (page_params limit is_test_mode since all_posts)).
Proof.
  intros Hb. unfold page_request_ok, api_request, page_params. cbn [url params].
  split; [eexists; reflexivity |]. split; [reflexivity |]. split.
  - destruct since as [s |]; [| reflexivity]. simpl.
    destruct (String.eqb s EmptyString); reflexivity.
  - eexists. split; [reflexivity |].
    destruct is_test_mode; [| unfold batch_size; lia].
    simpl in Hb. apply Z.leb_gt in Hb. unfold batch_size. lia.
Qed.

Lemma loop_requests server limit is_test_mode since fuel : forall next_page ls ls',
  get_user_posts_loop server fuel limit is_test_mode since next_page ls = Some ls' ->
  exists new,
    sent (snd ls') = (sent (snd ls) ++ new)%list
    /\ Forall (page_request_ok limit is_test_mode since) new.
Proof.
  induction fuel as [| fuel IH]; intros next_page [all_posts st] ls'; simpl.
  - destruct (loop_continues next_page); [discriminate |].
    intros [= <-]. exists []. rewrite app_nil_r. split; [reflexivity | constructor].
  - destruct (loop_continues next_page) as [endpoint |].
    2: { intros [= <-]. exists []. rewrite app_nil_r. split; [reflexivity | constructor]. }
    destruct (is_test_mode && (limit <=? Z.of_nat (length all_posts))) eqn:Hb.
    + rewrite body_break by exact Hb. intros [= <-]. exists [].
      rewrite app_nil_r. split; [reflexivity | constructor].
    + pose proof (body_state server limit is_test_mode since endpoint all_posts st Hb)
        as Hstate.
      pose proof (make_api_request_sent server endpoint
                    (page_params limit is_test_mode since all_posts) st) as Hsent.
      rewrite <- Hstate in Hsent.
      pose proof (page_params_ok limit is_test_mode since endpoint all_posts Hb) as Hok.
      destruct (get_user_posts_body server limit is_test_mode since endpoint (all_posts, st))
        as [[e | [| next_page1]] ls1]; simpl in Hsent.
      * intros [= <-]. eexists. split; [exact Hsent |].
        constructor; [exact Hok | constructor].
      * intros [= <-]. eexists. split; [exact Hsent |].
        constructor; [exact Hok | constructor].
      * intros Hrun. apply IH in Hrun as (new & Hnew & Hall).
        exists (api_request endpoint (page_params limit is_test_mode since all_posts) :: new).
        split; [| constructor; assumption].
        rewrite Hnew, Hsent, <- app_assoc. reflexivity.
Qed.

(** X5: every request a run of [get_user_posts] sends is a page request of
    the call: it asks for the seven fields, passes the [since] of the call
    on as it is (and leaves it out when it is empty), and asks for at least
    one post and at most the batch size, in test mode for no more than the
    [limit] of the call. *)
Theorem get_user_posts_requests_well_formed
    (server : list request -> request -> result response)
    (fuel : nat) (limit : Z) (is_test_mode : bool) (since : option string)
    (st : state) (out : list json * state) :
  get_user_posts server fuel limit is_test_mode since st = Some out ->
  exists new,
    sent (snd out) = (sent st ++ new)%list
    /\ Forall (page_request_ok limit is_test_mode since) new.
Proof. apply loop_requests. Qed.

(** The two requests of the run over two pages, for three posts. *)
Lemma get_user_posts_requests_well_formed_witness :
  exists out new,
    get_user_posts two_pages 5 3 true (Some "2024-01-01") fresh = Some out
    /\ sent (snd out) = new
    /\ length new = 2%nat
    /\ Forall (page_request_ok 3 true (Some "2024-01-01")) new.
Proof.
  destruct (get_user_posts_requests_well_formed two_pages 5 3 true (Some "2024-01-01")
              fresh
              (default ([], fresh)
                 (get_user_posts two_pages 5 3 true (Some "2024-01-01") fresh)))
    as (new & Hsent & Hall).
  - vm_compute. reflexivity.
  - eexists _, new. split; [vm_compute; reflexivity |].
    split; [exact Hsent |]. split; [| exact Hall].
    change (sent fresh ++ new)%list with new in Hsent.
    rewrite <- Hsent. vm_compute. reflexivity.
Defined.

(** *** Following the link to the next page *)

Lemma append_cons (a : ascii) (s t : string) : String a s +:+ t = String a (s +:+ t).
Proof. reflexivity. Qed.

Lemma append_assoc_char (seg : string) (c : ascii) (rest : string) :
  (seg +:+ String c EmptyString) +:+ rest = seg +:+ String c rest.
Proof.
  induction seg as [| a seg IH]; [reflexivity |].
  rewrite !append_cons, IH. reflexivity.
Qed.

Lemma append_empty (seg : string) : seg +:+ EmptyString = seg.
Proof.
  induction seg as [| a seg IH]; [reflexivity |]. rewrite append_cons, IH. reflexivity.
Qed.

(** Without an occurrence of the separator, nothing is cut. *)
Lemma split_last_from_whole sep s : forall seg,
  substring_of sep s = false ->
  split_last_from sep s 0 seg = seg +:+ s.
Proof.
  induction s as [| c rest IH]; intros seg Hno.
  - symmetry. apply append_empty.
  - cbn [substring_of] in Hno. apply orb_false_iff in Hno as [Hhere Hrest].
    cbn [split_last_from]. rewrite Hhere, IH by exact Hrest. apply append_assoc_char.
Qed.

(** The characters of an occurrence are stepped over. *)
Lemma split_last_from_skip sep x : forall rest seg,
  split_last_from sep (x +:+ rest) (String.length x) seg = split_last_from sep rest 0 seg.
Proof.
  induction x as [| c x IH]; intros rest seg.
  - change (EmptyString +:+ rest) with rest. destruct rest; reflexivity.
  - rewrite append_cons. cbn [split_last_from String.length]. apply IH.
Qed.

Lemma prefix_append sep : forall rest, String.prefix sep (sep +:+ rest) = true.
Proof.
  induction sep as [| a sep IH]; intros rest; [destruct rest; reflexivity |].
  rewrite append_cons. cbn [String.prefix].
  destruct (ascii_dec a a); [apply IH | congruence].
Qed.

(** After an occurrence of the separator, the scan starts again. *)
Lemma split_last_from_occurrence sep rest seg :
  sep <> EmptyString ->
  split_last_from sep (sep +:+ rest) 0 seg = split_last_from sep rest 0 EmptyString.
Proof.
  intros Hsep. destruct sep as [| a sep']; [congruence |].
  pose proof (prefix_append (String a sep') rest) as Hp.
  rewrite append_cons in *. cbn [split_last_from]. rewrite Hp.
  replace (String.length (String a sep') - 1)%nat with (String.length sep')
    by (cbn [String.length]; lia).
  apply split_last_from_skip.
Qed.

(** X6: a link to the next page that is the base URL, a slash and a path
    without the base URL in it is cut to the path, so that the request of the
    next iteration goes to the link itself; a link without the base URL in
    it is taken whole as the endpoint. *)
Theorem next_link_is_followed (path : string) (ps : list (string * json)) :
  substring_of (base_url +:+ "/") path = false ->
  next_endpoint (JStr ((base_url +:+ "/") +:+ path)) = inr path
  /\ url (api_request path ps) = (base_url +:+ "/") +:+ path
  /\ next_endpoint (JStr path) = inr path.
Proof.
  intros Hno. split; [| split; [reflexivity |]].
  - unfold next_endpoint, split_last. f_equal.
    rewrite split_last_from_occurrence by discriminate.
    rewrite split_last_from_whole by exact Hno. reflexivity.
  - unfold next_endpoint, split_last. f_equal.
    rewrite split_last_from_whole by exact Hno. reflexivity.
Qed.

Lemma next_link_is_followed_witness :
  next_endpoint (JStr "https://graph.threads.net/v1.0/me/threads?after=QVFI")
  = inr "me/threads?after=QVFI".
Proof.
  apply (next_link_is_followed "me/threads?after=QVFI" []). vm_compute. reflexivity.
Defined.

(** *** How a listing ends *)

Import MoreSamples.

Section Ending.

Variable server : list request -> request -> result response.
Variables (limit : Z) (since : option string).

(** In test mode, the loop returns within as many iterations as posts are
    left to collect, when no iteration ends without a post more. *)
Lemma test_mode_loop_returns :
  (forall endpoint ls next_page ls',
     get_user_posts_body server limit true since endpoint ls = (inr (Next next_page), ls') ->
     (length (fst ls) < length (fst ls'))%nat) ->
  forall d fuel next_page ls,
    (Z.to_nat (limit - Z.of_nat (length (fst ls))) <= d)%nat ->
    (d < fuel)%nat ->
    is_Some (get_user_posts_loop server fuel limit true since next_page ls).
Proof.
  intros Hgrows. induction d as [| d IH]; intros fuel next_page [all_posts st] Hd Hfuel;
    (destruct fuel as [| fuel]; [lia |]); cbn [fst] in Hd; cbn [get_user_posts_loop].
  - destruct (loop_continues next_page) as [endpoint |]; [| eauto].
    rewrite body_break by (apply Z.leb_le; lia). eauto.
  - destruct (loop_continues next_page) as [endpoint |]; [| eauto].
    destruct (limit <=? Z.of_nat (length all_posts)) eqn:Hle.
    + rewrite body_break by (simpl; exact Hle). eauto.
    + destruct (get_user_posts_body server limit true since endpoint (all_posts, st))
        as [[e | [| next_page1]] ls1] eqn:Hbody; [eauto | eauto |].
      pose proof (Hgrows endpoint (all_posts, st) next_page1 ls1 Hbody) as Hlt.
      cbn [fst] in Hlt. apply Z.leb_gt in Hle.
      apply IH; lia.
Qed.

End Ending.

(** X18: in test mode [get_user_posts] returns within [limit] iterations
    and one more, against every server none of whose pages comes without a
    post, however long the server goes on linking to a next page. *)
Theorem test_mode_listing_returns
    (server : list request -> request -> result response)
    (limit : Z) (since : option string) (st : state) (fuel : nat) :
  (forall endpoint ls next_page ls',
     get_user_posts_body server limit true since endpoint ls = (inr (Next next_page), ls') ->
     (length (fst ls) < length (fst ls'))%nat) ->
  (Z.to_nat limit < fuel)%nat ->
  is_Some (get_user_posts server fuel limit true since st).
Proof.
  intros Hgrows Hfuel. unfold get_user_posts.
  apply (test_mode_loop_returns server limit since Hgrows (Z.to_nat limit)); simpl; lia.
Qed.

(** Every page of the endless listing has its two posts. *)
Lemma endless_grows limit since endpoint ls next_page ls' :
  get_user_posts_body endless limit true since endpoint ls = (inr (Next next_page), ls') ->
  (length (fst ls) < length (fst ls'))%nat.
Proof.
  destruct ls as [all_posts st]. unfold get_user_posts_body, _make_api_request. run.
  destruct (limit <=? Z.of_nat (length all_posts)); [discriminate |].
  simpl. intros [= _ <-]. simpl. rewrite length_app. simpl. lia.
Qed.

(** Five posts are asked of the endless listing: the run returns. *)
Lemma test_mode_listing_returns_witness :
  is_Some (get_user_posts endless 6 5 true None fresh).
Proof.
  apply test_mode_listing_returns; [apply endless_grows | simpl; lia].
Defined.

(** X19: whatever raises within an iteration of [get_user_posts], the run
    returns with the error logged, and the posts it returns begin with all
    the posts collected before that iteration: they are followed by the
    posts of the page of the iteration when the page was read and the
    failure came after it. *)
Theorem listing_failure_keeps_posts
    (server : list request -> request -> result response)
    (limit : Z) (is_test_mode : bool) (since : option string)
    (fuel : nat) (next_page : option string) (endpoint : string)
    (all_posts : list json) (st : state) (e : exn) (ls' : list json * state) :
  loop_continues next_page = Some endpoint ->
  get_user_posts_body server limit is_test_mode since endpoint (all_posts, st)
  = (inl e, ls') ->
  get_user_posts_loop server (S fuel) limit is_test_mode since next_page (all_posts, st)
  = Some (fst ls', record_error (ErrorFetchingPosts e) (snd ls'))
  /\ all_posts `prefix_of` fst ls'.
Proof.
  intros Hc Hbody. split.
  - eapply loop_at_failure; eassumption.
  - eapply body_failure_keeps_posts. exact Hbody.
Qed.

(** A page with a post and a broken paging: the post is returned. *)
Lemma listing_failure_keeps_posts_witness :
  exists st',
    get_user_posts broken_paging 1 100 false None fresh = Some ([JStr "p1"], st')
    /\ [] `prefix_of` [JStr "p1"].
Proof.
  destruct (listing_failure_keeps_posts broken_paging 100 false None 0 (Some "me/threads")
              "me/threads" [] fresh AttributeError
              (snd (get_user_posts_body broken_paging 100 false None "me/threads"
                      ([], fresh))))
    as [Hrun Hprefix].
  - reflexivity.
  - vm_compute. reflexivity.
  - eexists. split; [exact Hrun | exact Hprefix].
Defined.

(** *** The cache after a call *)

Section CacheAfter.

Variable server : list request -> request -> result response.

#[local] Arguments _make_api_request : simpl never.

(** With the cache, the collection writes each result into the cache as it
    stores it in the map, and leaves the other entries. *)
Lemma collect_cached results : forall post_ids insights_map st,
  length post_ids = length results ->
  exists st',
    foldM (fun _ fp => collect true fp) tt (zip (map inr results) post_ids)
      (insights_map, st)
    = (inr tt, (store insights_map results, st'))
    /\ data <$> _insights_cache st' = store (data <$> _insights_cache st) results
    /\ (forall id, id ∉ map fst results ->
          _insights_cache st' !! id = _insights_cache st !! id).
Proof.
  induction results as [| [post_id insights] rest IH];
    intros post_ids insights_map st Hlen.
  - exists st. simpl. auto.
  - destruct post_ids as [| p post_ids]; [discriminate |].
    injection Hlen as Hlen. simpl.
    unfold bind at 1. unfold collect at 1. unfold _update_cache. run.
    destruct (IH post_ids (<[post_id := insights]> insights_map)
                (set_cache
                   (<[post_id := {| data := insights; timestamp := now st |}]>
                      (_insights_cache st)) st) Hlen)
      as (st' & Hrun & Hdata & Hframe).
    exists st'. rewrite Hrun. split; [reflexivity |]. split.
    + rewrite Hdata. simpl. rewrite fmap_insert. reflexivity.
    + intros id Hid. rewrite Hframe by set_solver. simpl.
      apply lookup_insert_ne. set_solver.
Qed.

Lemma process_batch_cached batch insights_map st :
  exists st',
    process_batch server true batch (insights_map, st)
    = (inr tt, (store insights_map (fetched server (sent st) batch), st'))
    /\ data <$> _insights_cache st'
       = store (data <$> _insights_cache st) (fetched server (sent st) batch)
    /\ (forall id, id ∉ batch -> _insights_cache st' !! id = _insights_cache st !! id).
Proof.
  unfold process_batch.
  destruct (workers_spec server batch st) as (st1 & Hrun & Hsent & Hcache).
  unfold bind, on_snd. simpl. rewrite Hrun. simpl.
  destruct (collect_cached (fetched server (sent st) batch) batch insights_map st1)
    as (st2 & Hrun2 & Hdata & Hframe); [rewrite fetched_length; reflexivity |].
  exists st2. split; [exact Hrun2 |]. rewrite fetched_ids, Hcache in *. auto.
Qed.

Lemma process_batches_cached batches : forall insights_map st,
  exists st',
    foldM (fun _ batch => process_batch server true batch) tt batches (insights_map, st)
    = (inr tt, (store insights_map (fetched server (sent st) (concat batches)), st'))
    /\ data <$> _insights_cache st'
       = store (data <$> _insights_cache st) (fetched server (sent st) (concat batches))
    /\ (forall id, id ∉ concat batches ->
          _insights_cache st' !! id = _insights_cache st !! id).
Proof.
  induction batches as [| batch rest IH]; intros insights_map st; simpl.
  - exists st. auto.
  - destruct (process_batch_cached batch insights_map st) as (st1 & Hrun & Hdata & Hframe).
    destruct (process_batch_spec server true batch insights_map st)
      as (st1' & Hrun' & Hsent & _).
    rewrite Hrun in Hrun'. injection Hrun' as <-.
    unfold bind at 1. rewrite Hrun.
    destruct (IH (store insights_map (fetched server (sent st) batch)) st1)
      as (st2 & Hrun2 & Hdata2 & Hframe2).
    exists st2. rewrite Hrun2, Hsent, fetched_app, !store_app.
    split; [reflexivity |]. split.
    + rewrite Hdata2, Hdata, Hsent. reflexivity.
    + intros id Hid. rewrite Hframe2, Hframe by set_solver. reflexivity.
Qed.

(** A call with the cache: its map, and the cache it leaves. *)
Lemma get_post_insights_cached post_ids st :
  let misses := cache_misses true (_insights_cache st) (requested post_ids) in
  let results := fetched server (sent st) misses in
  exists st',
    get_post_insights server post_ids true st
    = (inr (store (cached_posts_of (_insights_cache st) (requested post_ids)) results), st')
    /\ data <$> _insights_cache st' = store (data <$> _insights_cache st) results
    /\ (forall id, id ∉ misses -> _insights_cache st' !! id = _insights_cache st !! id).
Proof.
  intros misses results. subst results misses.
  unfold get_post_insights, cache_misses. fold (requested post_ids).
  rewrite uncached_are_misses, (right_id_L ∅ (∪)).
  destruct (process_batches_cached
              (sub_batches (filter (fun post_id => _insights_cache st !! post_id = None)
                              (requested post_ids)))
              (cached_posts_of (_insights_cache st) (requested post_ids)) st)
    as (st' & Hrun & Hdata & Hframe).
  rewrite sub_batches_concat in *. exists st'. rewrite Hrun. auto.
Qed.

End CacheAfter.

(** What [store] leaves at a key: the last result for the key, or what was
    there. *)
Lemma store_lookup results : forall (insights_map : gmap string bundle) id,
  store insights_map results !! id
  = match store ∅ results !! id with
    | Some insights => Some insights
    | None => insights_map !! id
    end.
Proof.
  induction results as [| [k v] rest IH]; intros insights_map id.
  - reflexivity.
  - change (store insights_map ((k, v) :: rest))
      with (store (<[k := v]> insights_map) rest).
    change (store ∅ ((k, v) :: rest)) with (store (<[k := v]> ∅) rest).
    rewrite (IH (<[k := v]> insights_map)), (IH (<[k := v]> ∅)).
    destruct (store ∅ rest !! id); [reflexivity |].
    destruct (decide (k = id)) as [-> | Hne].
    + rewrite !lookup_insert_eq. reflexivity.
    + rewrite !lookup_insert_ne by exact Hne. rewrite lookup_empty. reflexivity.
Qed.

Lemma store_has results : forall (insights_map : gmap string bundle) id,
  id ∈ map fst results -> is_Some (store insights_map results !! id).
Proof.
  intros insights_map id Hid. apply elem_of_dom. rewrite store_dom. set_solver.
Qed.

Lemma filter_none {A} (P : A -> Prop) `{!forall x, Decision (P x)} (l : list A) :
  (forall x, x ∈ l -> ~ P x) -> filter P l = [].
Proof.
  induction l as [| x l IH]; intros Hnot; [reflexivity |].
  rewrite filter_cons, decide_False by (apply Hnot; left).
  apply IH. intros y Hy. apply Hnot. right. exact Hy.
Qed.

(** A call all of whose IDs have an entry in the cache returns the bundles
    of these entries, and leaves the state as it is. *)
Lemma all_cached_served (server : list request -> request -> result response)
    post_ids st :
  (forall id, id ∈ requested post_ids -> is_Some (_insights_cache st !! id)) ->
  get_post_insights server post_ids true st
  = (inr (cached_posts_of (_insights_cache st) (requested post_ids)), st).
Proof.
  intros Hall. unfold get_post_insights. fold (requested post_ids).
  rewrite uncached_are_misses, (right_id_L ∅ (∪)), filter_none; [reflexivity |].
  intros id Hid Hnone. destruct (Hall id Hid) as [entry Hentry]. congruence.
Qed.

(** X7: after a call with the cache, the cache holds, for every ID of the
    call, the bundle the call returns for it (the zero-filled bundle of a
    failed fetch as any other), and the entries of the other IDs are as they
    were. *)
Theorem returned_bundles_are_cached
    (server : list request -> request -> result response)
    (post_ids : string + list string) (st : state) :
  exists insights_map st',
    get_post_insights server post_ids true st = (inr insights_map, st')
    /\ (forall id, id ∈ requested post_ids ->
          is_Some (insights_map !! id)
          /\ data <$> _insights_cache st' !! id = insights_map !! id)
    /\ (forall id, id ∉ requested post_ids ->
          _insights_cache st' !! id = _insights_cache st !! id).
Proof.
  destruct (get_post_insights_cached server post_ids st) as (st' & Hrun & Hdata & Hframe).
  eexists _, st'. split; [exact Hrun |]. split.
  - intros id Hid.
    assert (Hagree : data <$> _insights_cache st' !! id
                     = store (cached_posts_of (_insights_cache st) (requested post_ids))
                         (fetched server (sent st)
                            (cache_misses true (_insights_cache st) (requested post_ids)))
                       !! id).
    { rewrite <- lookup_fmap, Hdata, store_lookup,
        (store_lookup _ (cached_posts_of _ _)), cached_posts_of_lookup,
        decide_True by exact Hid.
      rewrite lookup_fmap. reflexivity. }
    split; [| exact Hagree].
    destruct (_insights_cache st !! id) as [entry |] eqn:Hentry.
    + rewrite store_lookup, cached_posts_of_lookup, decide_True, Hentry by exact Hid.
      destruct (store ∅ _ !! id); simpl; eauto.
    + apply store_has. rewrite fetched_ids. unfold cache_misses.
      apply list_elem_of_filter. split; assumption.
  - intros id Hid. apply Hframe. unfold cache_misses.
    rewrite list_elem_of_filter. tauto.
Qed.

(** X8: a call with the cache, made again with the same IDs, is served from
    the cache whatever the server has become: it returns the map of the
    first call, sends no request and leaves the state as it is. *)
Theorem second_call_served_from_cache
    (server server' : list request -> request -> result response)
    (post_ids : string + list string) (st : state) :
  exists insights_map st',
    get_post_insights server post_ids true st = (inr insights_map, st')
    /\ get_post_insights server' post_ids true st' = (inr insights_map, st').
Proof.
  destruct (get_post_insights_cached server post_ids st) as (st' & Hrun & Hdata & Hframe).
  eexists _, st'. split; [exact Hrun |].
  set (misses := cache_misses true (_insights_cache st) (requested post_ids)) in *.
  set (results := fetched server (sent st) misses) in *.
  assert (Hlook : forall id,
             data <$> _insights_cache st' !! id
             = match store ∅ results !! id with
               | Some insights => Some insights
               | None => data <$> _insights_cache st !! id
               end).
  { intros id. rewrite <- !lookup_fmap, Hdata. apply store_lookup. }
  rewrite all_cached_served.
  - f_equal. f_equal. apply map_eq. intros id.
    rewrite store_lookup, !cached_posts_of_lookup.
    destruct (decide (id ∈ requested post_ids)) as [Hin | Hout]; [apply Hlook |].
    rewrite (store_lookup_other results ∅ id); [rewrite lookup_empty; reflexivity |].
    subst results misses. rewrite fetched_ids. unfold cache_misses.
    rewrite list_elem_of_filter. tauto.
  - intros id Hid. apply fmap_is_Some with (f := data). rewrite Hlook.
    destruct (_insights_cache st !! id) as [entry |] eqn:Hentry.
    + destruct (store ∅ results !! id); simpl; eauto.
    + pose proof (store_has results ∅ id) as Hhas.
      destruct Hhas as [insights Hins]; [| rewrite Hins; eauto].
      subst results misses. rewrite fetched_ids. unfold cache_misses.
      apply list_elem_of_filter. split; assumption.
Qed.

(** What [store] leaves at the key of a result that is the last for its
    key. *)
Lemma store_lookup_last results : forall (insights_map : gmap string bundle) i id insights,
  results !! i = Some (id, insights) ->
  (forall j, (i < j)%nat -> map fst results !! j <> Some id) ->
  store insights_map results !! id = Some insights.
Proof.
  induction results as [| [k v] rest IH]; intros insights_map i id insights Hi Hlast;
    [discriminate |].
  change (store insights_map ((k, v) :: rest)) with (store (<[k := v]> insights_map) rest).
  destruct i as [| i]; simpl in Hi.
  - injection Hi as -> ->.
    rewrite store_lookup_other; [apply lookup_insert_eq |].
    intros Hin. apply list_elem_of_lookup in Hin as [j Hj].
    apply (Hlast (S j)); [lia | exact Hj].
  - apply (IH _ i); [exact Hi |].
    intros j Hj. apply (Hlast (S j)). lia.
Qed.

(** X9: a call does not deduplicate its IDs: it sends one request for each
    occurrence of an ID that has no entry in the cache, in the order of the
    list, and the entry of the map for an ID listed more than once is the
    bundle of the last of its requests. *)
Theorem duplicate_ids_are_fetched_again
    (server : list request -> request -> result response)
    (post_ids : string + list string) (use_cache : bool) (st : state)
    (i : nat) (post_id : string) :
  let misses := cache_misses use_cache (_insights_cache st) (requested post_ids) in
  misses !! i = Some post_id ->
  (forall j, (i < j)%nat -> misses !! j <> Some post_id) ->
  exists insights_map st',
    get_post_insights server post_ids use_cache st = (inr insights_map, st')
    /\ sent st' = (sent st ++ map insights_request misses)%list
    /\ insights_map !! post_id
       = Some (insights_of
                 (server (sent st ++ map insights_request (take i misses))%list
                    (insights_request post_id))).
Proof.
  intros misses Hi Hlast.
  destruct (get_post_insights_run server post_ids use_cache st)
    as (st' & Hrun & Hsent & _).
  fold misses in Hrun, Hsent.
  eexists _, st'. split; [exact Hrun |]. split; [exact Hsent |].
  eapply store_lookup_last.
  - apply fetched_lookup. exact Hi.
  - rewrite fetched_ids. exact Hlast.
Qed.

(** The post [a] listed twice around the post [c]: three requests, and the
    entry of [a] read from the answer to the third. *)
Lemma duplicate_ids_are_fetched_again_witness :
  exists insights_map st',
    get_post_insights b_times_out (inr ["a"; "c"; "a"]) false fresh
    = (inr insights_map, st')
    /\ map url (sent st')
       = [base_url +:+ "/a/insights"; base_url +:+ "/c/insights"; base_url +:+ "/a/insights"]
    /\ is_Some (insights_map !! "a").
Proof.
  destruct (duplicate_ids_are_fetched_again b_times_out (inr ["a"; "c"; "a"]) false fresh
              2 "a") as (insights_map & st' & Hrun & Hsent & Ha).
  - reflexivity.
  - intros [| [| [| j]]] Hj; simpl; try lia; discriminate.
  - exists insights_map, st'. split; [exact Hrun |]. split.
    + rewrite Hsent. reflexivity.
    + rewrite Ha. eauto.
Defined.

End ClientProperties.

(** * Properties of the credential store *)

Module StoreProperties.
Import Py Monad CryptoManager.

Section Store.

Context `{Libraries}.

(** Unfolds a method of the store down to its cases. *)
Ltac run_store :=
  unfold load_credentials, encrypt_credentials, get_single_credential, read_bytes,
    decrypt, try_except, bind, gets, modify, lift, ret, raise;
  simpl.

(** [load_credentials], by what the sealed file holds. *)
Lemma load_credentials_cases (self : manager) (fs : files) :
  load_credentials self fs
  = (match fs !! credentials_path self with
     | None => inl (CryptoError "Decryption failed: Credentials file not found")
     | Some blob =>
         match fernet_decrypt (fernet self) blob with
         | None => inl (CryptoError "Invalid encryption key or corrupted data")
         | Some plain =>
             match (let? json_data := bytes_decode plain in json_loads json_data) with
             | inr credentials => inr credentials
             | inl InvalidToken =>
                 inl (CryptoError "Invalid encryption key or corrupted data")
             | inl e => inl (CryptoError ("Decryption failed: " +:+ str e))
             end
         end
     end, fs).
Proof.
  run_store.
  destruct (fs !! credentials_path self) as [blob |] eqn:Hblob.
  2: { rewrite bool_decide_false by (intros [? ?]; discriminate). reflexivity. }
  rewrite bool_decide_true by eauto. simpl. rewrite Hblob.
  destruct (fernet_decrypt (fernet self) blob) as [plain |]; simpl; [| reflexivity].
  destruct (bytes_decode plain) as [e | json_data]; simpl; [destruct e; reflexivity |].
  destruct (json_loads json_data) as [e | credentials]; simpl; [destruct e |]; reflexivity.
Qed.

(** C3: sealing a mapping and then unsealing gives the mapping back, for
    every mapping that [json] and the codec of [str] carry through and every
    key under which Fernet decrypts what it has encrypted. *)
Theorem load_after_encrypt (self : manager) (credentials : json) (n : nonce) (fs : files) :
  json_loads (json_dumps credentials) = inr credentials ->
  bytes_decode (str_encode (json_dumps credentials)) = inr (json_dumps credentials) ->
  fernet_decrypt (fernet self)
    (fernet_encrypt (fernet self) n (str_encode (json_dumps credentials)))
  = Some (str_encode (json_dumps credentials)) ->
  exists fs',
    encrypt_credentials self credentials n fs = (inr tt, fs')
    /\ load_credentials self fs' = (inr credentials, fs').
Proof.
  intros Hjson Hcodec Hfernet.
  eexists. split; [reflexivity |].
  rewrite load_credentials_cases, lookup_insert_eq, Hfernet. simpl.
  rewrite Hcodec. simpl. rewrite Hjson. reflexivity.
Qed.

(** C4: unsealing a file that Fernet does not accept under the key of the
    store (as it does not accept a corrupted file, or one sealed under
    another key) fails with the [CryptoError] "Invalid encryption key or
    corrupted data"; unsealing when the file is absent fails with the
    [CryptoError] of the missing file; and a mapping comes back only as the
    decoding of what Fernet has accepted. *)
Theorem load_credentials_rejects (self : manager) (fs : files) :
  match fs !! credentials_path self with
  | None =>
      load_credentials self fs
      = (inl (CryptoError "Decryption failed: Credentials file not found"), fs)
  | Some blob =>
      match fernet_decrypt (fernet self) blob with
      | None =>
          load_credentials self fs
          = (inl (CryptoError "Invalid encryption key or corrupted data"), fs)
      | Some plain =>
          match fst (load_credentials self fs) with
          | inr credentials =>
              (let? json_data := bytes_decode plain in json_loads json_data)
              = inr credentials
          | inl e => exists message, e = CryptoError message
          end
      end
  end.
Proof.
  rewrite load_credentials_cases.
  destruct (fs !! credentials_path self) as [blob |]; [| reflexivity].
  destruct (fernet_decrypt (fernet self) blob) as [plain |]; [| reflexivity].
  simpl. destruct (let? json_data := bytes_decode plain in json_loads json_data)
    as [e | credentials]; [| reflexivity].
  destruct e; eexists; reflexivity.
Qed.

(** C8: from a store that unseals to a mapping, [get_single_credential]
    returns the value the mapping has for the name, and fails with a
    [CryptoError] that tells the name is not found when the mapping has
    none. *)
Theorem get_single_credential_finds_or_fails (self : manager) (key : string)
    (fs : files) (members : list (string * json)) :
  load_credentials self fs = (inr (JObj members), fs) ->
  get_single_credential self key fs
  = (match lookup_member key members with
     | Some value => inr value
     | None =>
         inl (CryptoError
                ("獲取憑證 '" +:+ key +:+ "' 時發生錯誤: " +:+ "找不到指定的憑證: " +:+ key))
     end, fs).
Proof.
  intros Hload. unfold get_single_credential, try_except, bind.
  rewrite Hload. unfold lift, contains, getitem, raise. simpl.
  destruct (lookup_member key members) as [value |]; reflexivity.
Qed.

End Store.

(** ** The store, run on the model of the libraries *)

Import LibraryModel Samples.

(** The sample credentials come back from the sealed file. *)
Lemma load_after_encrypt_witness :
  exists fs',
    encrypt_credentials store1 secrets drawn ∅ = (inr tt, fs')
    /\ load_credentials store1 fs' = (inr secrets, fs').
Proof.
  apply (load_after_encrypt store1 secrets drawn ∅); vm_compute; reflexivity.
Defined.

(** A sealed file with one bit flipped, a sealed file read under another
    key, and no sealed file at all. *)
Lemma load_credentials_rejects_witness :
  load_credentials store1 tampered
  = (inl (CryptoError "Invalid encryption key or corrupted data"), tampered)
  /\ load_credentials store2 sealed
     = (inl (CryptoError "Invalid encryption key or corrupted data"), sealed)
  /\ load_credentials store1 ∅
     = (inl (CryptoError "Decryption failed: Credentials file not found"), ∅).
Proof.
  split; [exact (load_credentials_rejects store1 tampered) |].
  split; [exact (load_credentials_rejects store2 sealed) |].
  exact (load_credentials_rejects store1 ∅).
Defined.

(** A name the sample credentials have, and one they have not. *)
Lemma get_single_credential_finds_or_fails_witness :
  get_single_credential store1 "spreadsheet_id" sealed = (inr (JStr "sheet-456"), sealed)
  /\ fst (get_single_credential store1 "password" sealed)
     = inl (CryptoError
              ("獲取憑證 'password' 時發生錯誤: " +:+ "找不到指定的憑證: password")).
Proof.
  split.
  - refine (get_single_credential_finds_or_fails store1 "spreadsheet_id" sealed
              [("threads_token", JStr "token-123");
               ("spreadsheet_id", JStr "sheet-456");
               ("google_credentials",
                JObj [("type", JStr "service_account"); ("project_id", JStr "analytics")])]
              _).
    vm_compute. reflexivity.
  - rewrite (get_single_credential_finds_or_fails store1 "password" sealed
               [("threads_token", JStr "token-123");
                ("spreadsheet_id", JStr "sheet-456");
                ("google_credentials",
                 JObj [("type", JStr "service_account"); ("project_id", JStr "analytics")])]).
    + reflexivity.
    + vm_compute. reflexivity.
Defined.

(** ** Further properties of the store *)

Section MoreStore.

Context `{Libraries}.

(** [get_single_credential], by what [load_credentials] comes to. *)
Lemma get_single_credential_cases (self : manager) (key : string) (fs : files) :
  get_single_credential self key fs
  = (match fst (load_credentials self fs) with
     | inl e =>
         inl (CryptoError ("獲取憑證 '" +:+ key +:+ "' 時發生錯誤: " +:+ str e))
     | inr creds =>
         match contains creds key with
         | inl e =>
             inl (CryptoError ("獲取憑證 '" +:+ key +:+ "' 時發生錯誤: " +:+ str e))
         | inr false =>
             inl (CryptoError
                    ("獲取憑證 '" +:+ key +:+ "' 時發生錯誤: "
                     +:+ "找不到指定的憑證: " +:+ key))
         | inr true =>
             match getitem creds key with
             | inl e =>
                 inl (CryptoError ("獲取憑證 '" +:+ key +:+ "' 時發生錯誤: " +:+ str e))
             | inr value => inr value
             end
         end
     end, fs).
Proof.
  unfold get_single_credential, try_except, bind.
  rewrite load_credentials_cases. cbn [fst snd].
  destruct (fs !! credentials_path self) as [blob |]; [| reflexivity].
  destruct (fernet_decrypt (fernet self) blob) as [plain |]; [| reflexivity].
  destruct (let? json_data := bytes_decode plain in json_loads json_data)
    as [e | creds]; [destruct e; reflexivity |].
  unfold lift, raise. destruct (contains creds key) as [e | []]; try reflexivity.
  destruct (getitem creds key); reflexivity.
Qed.

(** X10: the store fails with [CryptoError] and with nothing else: whatever
    the files hold and whatever the libraries raise, an exception of
    [load_credentials] or of [get_single_credential] is a [CryptoError]; and
    neither method changes a file. *)
Theorem store_raises_crypto_error_only (self : manager) (key : string) (fs : files) :
  (snd (load_credentials self fs) = fs
   /\ match fst (load_credentials self fs) with
      | inl e => exists message, e = CryptoError message
      | inr _ => True
      end)
  /\ (snd (get_single_credential self key fs) = fs
      /\ match fst (get_single_credential self key fs) with
         | inl e => exists message, e = CryptoError message
         | inr _ => True
         end).
Proof.
  split.
  - rewrite load_credentials_cases. split; [reflexivity |]. cbn [fst].
    destruct (fs !! credentials_path self) as [blob |]; [| eauto].
    destruct (fernet_decrypt (fernet self) blob) as [plain |]; [| eauto].
    destruct (let? json_data := bytes_decode plain in json_loads json_data)
      as [e | creds]; [destruct e; eauto | exact I].
  - rewrite get_single_credential_cases. split; [reflexivity |]. cbn [fst].
    destruct (fst (load_credentials self fs)) as [e | creds]; [eauto |].
    destruct (contains creds key) as [e | []]; eauto.
    destruct (getitem creds key); eauto.
Qed.

(** A value comes out of an object that has the name, and out of nothing
    else. *)
Lemma get_single_credential_value (self : manager) (key : string) (fs fs' : files)
    (value : json) :
  get_single_credential self key fs = (inr value, fs') ->
  exists members,
    load_credentials self fs = (inr (JObj members), fs)
    /\ lookup_member key members = Some value.
Proof.
  rewrite get_single_credential_cases.
  pose proof (load_credentials_cases self fs) as Hload.
  destruct (load_credentials self fs) as [[e | creds] fs0]; cbn [fst];
    [discriminate |].
  assert (fs0 = fs) as -> by (apply (f_equal snd) in Hload; exact Hload).
  destruct creds as [| b | n | s | items | members]; simpl; try discriminate.
  - destruct (substring_of key s); discriminate.
  - destruct (existsb (json_is_str key) items); discriminate.
  - destruct (lookup_member key members) as [v |] eqn:Hv.
    + rewrite bool_decide_true by eauto. intros [= <- <-]. eauto.
    + rewrite bool_decide_false by (intros [? ?]; discriminate). discriminate.
Qed.

(** X11: [get_single_credential] returns a value only out of a sealed file
    that unseals to a JSON object with the name among its members, and the
    value is the one the object has for the name: it returns nothing out of
    a list or a string that happens to contain the name. *)
Theorem get_single_credential_sound (self : manager) (key : string) (fs fs' : files)
    (value : json) :
  get_single_credential self key fs = (inr value, fs') ->
  exists members,
    load_credentials self fs = (inr (JObj members), fs)
    /\ lookup_member key members = Some value.
Proof. apply get_single_credential_value. Qed.

(** X12: what a store seals, it hands out by name: after
    [encrypt_credentials] of a JSON object, [get_single_credential] returns
    the value the object has for a name, for every object that [json] and
    the codec of [str] carry through and every key under which Fernet
    decrypts what it has encrypted. *)
Theorem sealed_credential_is_read (self : manager) (members : list (string * json))
    (n : nonce) (fs : files) (key : string) (value : json) :
  json_loads (json_dumps (JObj members)) = inr (JObj members) ->
  bytes_decode (str_encode (json_dumps (JObj members))) = inr (json_dumps (JObj members)) ->
  fernet_decrypt (fernet self)
    (fernet_encrypt (fernet self) n (str_encode (json_dumps (JObj members))))
  = Some (str_encode (json_dumps (JObj members))) ->
  lookup_member key members = Some value ->
  fst (get_single_credential self key
         (snd (encrypt_credentials self (JObj members) n fs)))
  = inr value.
Proof.
  intros Hjson Hcodec Hfernet Hvalue.
  rewrite get_single_credential_cases, load_credentials_cases. cbn [fst].
  change (snd (encrypt_credentials self (JObj members) n fs))
    with (<[credentials_path self :=
              fernet_encrypt (fernet self) n (str_encode (json_dumps (JObj members)))]> fs).
  rewrite lookup_insert_eq, Hfernet. simpl. rewrite Hcodec. simpl. rewrite Hjson.
  simpl. rewrite Hvalue, bool_decide_true by eauto. reflexivity.
Qed.

End MoreStore.

(** A name of the sample credentials read back, out of the files sealed. *)
Lemma get_single_credential_sound_witness :
  exists members,
    load_credentials store1 sealed = (inr (JObj members), sealed)
    /\ lookup_member "threads_token" members = Some (JStr "token-123").
Proof.
  apply (get_single_credential_sound store1 "threads_token" sealed sealed (JStr "token-123")).
  vm_compute. reflexivity.
Defined.

Lemma sealed_credential_is_read_witness :
  fst (get_single_credential store1 "spreadsheet_id"
         (snd (encrypt_credentials store1 secrets drawn ∅)))
  = inr (JStr "sheet-456").
Proof.
  refine (sealed_credential_is_read store1
            [("threads_token", JStr "token-123");
             ("spreadsheet_id", JStr "sheet-456");
             ("google_credentials",
              JObj [("type", JStr "service_account"); ("project_id", JStr "analytics")])]
            drawn ∅ "spreadsheet_id" (JStr "sheet-456") _ _ _ _);
    vm_compute; reflexivity.
Defined.

End StoreProperties.

(** * Properties of the construction *)

Module ConstructionProperties.
Import Py Monad ThreadsAPIClient CryptoManager Construction StoreProperties.

Section Building.

Context `{Libraries} `{Platform}.

(** [__init__] of the manager, by what the key file holds. *)
Lemma init_cases (key_path creds_path : string) (fs : files) :
  init key_path creds_path fs
  = (match fs !! key_path with
     | None =>
         inl (CryptoError
                ("Initialization failed: " +:+ "Encryption key file not found: "
                 +:+ key_path))
     | Some content =>
         match key_rejected content with
         | Some e => inl (CryptoError ("Initialization failed: " +:+ str e))
         | None => inr {| fernet := content; credentials_path := creds_path |}
         end
     end, fs).
Proof.
  unfold init, try_except, bind, gets, read_bytes, lift, ret, raise, new_fernet. simpl.
  destruct (fs !! key_path) as [content |] eqn:Hkey.
  2: { rewrite bool_decide_false by (intros [? ?]; discriminate). reflexivity. }
  rewrite bool_decide_true by eauto. simpl. rewrite Hkey.
  destruct (key_rejected content); reflexivity.
Qed.

(** [from_env], by the environment and the key file. *)
Lemma from_env_cases (env : environ) (fs : files) :
  from_env env fs
  = (if unset (env !! "CRYPTO_KEY_PATH")
     then inl (CryptoError "Missing CRYPTO_KEY_PATH environment variable")
     else if unset (env !! "CREDENTIALS_PATH")
     then inl (CryptoError "Missing CREDENTIALS_PATH environment variable")
     else
       match fs !! under_root (default EmptyString (env !! "CRYPTO_KEY_PATH")) with
       | None =>
           inl (CryptoError
                  ("Environment initialization failed: " +:+ "Initialization failed: "
                   +:+ "Encryption key file not found: "
                   +:+ under_root (default EmptyString (env !! "CRYPTO_KEY_PATH"))))
       | Some content =>
           match key_rejected content with
           | Some e =>
               inl (CryptoError
                      ("Environment initialization failed: " +:+ "Initialization failed: "
                       +:+ str e))
           | None =>
               inr {| fernet := content;
                      credentials_path :=
                        under_root (default EmptyString (env !! "CREDENTIALS_PATH")) |}
           end
       end, fs).
Proof.
  unfold from_env.
  destruct (unset (env !! "CRYPTO_KEY_PATH")); [reflexivity |].
  destruct (unset (env !! "CREDENTIALS_PATH")); [reflexivity |].
  unfold try_except. rewrite init_cases.
  destruct (fs !! _) as [content |]; [| reflexivity].
  destruct (key_rejected content); reflexivity.
Qed.

Lemma unset_false (value : option string) :
  unset value = false <-> exists s, value = Some s /\ s <> EmptyString.
Proof.
  destruct value as [s |]; simpl.
  - rewrite String.eqb_neq. split; [eauto |]. intros (s' & [= <-] & Hs). exact Hs.
  - split; [discriminate |]. intros (s & Hs & _). discriminate.
Qed.

(** X14: [from_env] builds a manager exactly when the two variables of the
    environment are set and not empty, the key file is there and Fernet
    takes the key; the manager holds the key of the file and the path of the
    sealed file under the root. Whether the sealed file is there plays no
    part. Every failure is a [CryptoError], and the files are left as they
    are. *)
Theorem from_env_builds_when_key_is_there (env : environ) (fs : files) :
  snd (from_env env fs) = fs
  /\ (forall self,
        fst (from_env env fs) = inr self
        <-> exists key_path creds_path content,
              env !! "CRYPTO_KEY_PATH" = Some key_path /\ key_path <> EmptyString
              /\ env !! "CREDENTIALS_PATH" = Some creds_path /\ creds_path <> EmptyString
              /\ fs !! under_root key_path = Some content
              /\ key_rejected content = None
              /\ self = {| fernet := content; credentials_path := under_root creds_path |})
  /\ (forall e, fst (from_env env fs) = inl e -> exists message, e = CryptoError message).
Proof.
  rewrite from_env_cases. cbn [fst snd]. split; [reflexivity |]. split.
  - intros self. split.
    + destruct (unset (env !! "CRYPTO_KEY_PATH")) eqn:Hk; [discriminate |].
      destruct (unset (env !! "CREDENTIALS_PATH")) eqn:Hc; [discriminate |].
      apply unset_false in Hk as (kp & Hk & Hkne). apply unset_false in Hc as (cp & Hc & Hcne).
      rewrite Hk, Hc. simpl.
      destruct (fs !! under_root kp) as [content |] eqn:Hfile; [| discriminate].
      destruct (key_rejected content) eqn:Hrej; [discriminate |].
      intros [= <-]. exists kp, cp, content. auto 10.
    + intros (kp & cp & content & Hk & Hkne & Hc & Hcne & Hfile & Hrej & ->).
      rewrite (proj2 (unset_false (env !! "CRYPTO_KEY_PATH"))) by eauto.
      rewrite (proj2 (unset_false (env !! "CREDENTIALS_PATH"))) by eauto.
      rewrite Hk, Hc. simpl. rewrite Hfile, Hrej. reflexivity.
  - intros e.
    destruct (unset (env !! "CRYPTO_KEY_PATH")); [intros [= <-]; eauto |].
    destruct (unset (env !! "CREDENTIALS_PATH")); [intros [= <-]; eauto |].
    destruct (fs !! _) as [content |]; [| intros [= <-]; eauto].
    destruct (key_rejected content); [intros [= <-]; eauto | discriminate].
Qed.

(** X15: what one run seals, a later run hands out: when the key file and
    the sealed file are two paths, sealing leaves [from_env] to build the
    manager it built before, and that manager reads the value of a name out
    of the file sealed. *)
Theorem sealed_by_one_run_read_by_the_next (env : environ) (fs : files) (self : manager)
    (members : list (string * json)) (n : nonce) (key : string) (value : json) :
  from_env env fs = (inr self, fs) ->
  under_root (default EmptyString (env !! "CRYPTO_KEY_PATH")) <> credentials_path self ->
  json_loads (json_dumps (JObj members)) = inr (JObj members) ->
  bytes_decode (str_encode (json_dumps (JObj members))) = inr (json_dumps (JObj members)) ->
  fernet_decrypt (fernet self)
    (fernet_encrypt (fernet self) n (str_encode (json_dumps (JObj members))))
  = Some (str_encode (json_dumps (JObj members))) ->
  lookup_member key members = Some value ->
  let fs' := snd (encrypt_credentials self (JObj members) n fs) in
  from_env env fs' = (inr self, fs')
  /\ fst (get_single_credential self key fs') = inr value.
Proof.
  intros Hbuilt Hpaths Hjson Hcodec Hfernet Hvalue fs'. split.
  - subst fs'. rewrite from_env_cases in *.
    change (snd (encrypt_credentials self (JObj members) n fs))
      with (<[credentials_path self :=
                fernet_encrypt (fernet self) n (str_encode (json_dumps (JObj members)))]> fs).
    rewrite lookup_insert_ne by congruence.
    injection Hbuilt as Hbuilt. rewrite Hbuilt. reflexivity.
  - subst fs'. rewrite get_single_credential_cases, load_credentials_cases. cbn [fst].
    change (snd (encrypt_credentials self (JObj members) n fs))
      with (<[credentials_path self :=
                fernet_encrypt (fernet self) n (str_encode (json_dumps (JObj members)))]> fs).
    rewrite lookup_insert_eq, Hfernet. simpl. rewrite Hcodec. simpl. rewrite Hjson.
    simpl. rewrite Hvalue, bool_decide_true by eauto. reflexivity.
Qed.

(** X16: a client is built only with a token: [__init__] returns only when
    [from_env] builds a manager and the sealed file unseals to an object
    whose [threads_token] is truthy; the headers are then the bearer of
    that token, the cache is empty and nothing is logged. Without
    [CREDENTIALS_PATH] it raises its [ValueError] before the store is
    looked at, and a token that is falsy (an empty text, say) is a
    [ValueError] as well. *)
Theorem new_client_needs_a_token (env : environ) (fs : files) :
  (forall headers cache log,
     new_client env fs = (inr (headers, cache), log) ->
     exists self members token,
       from_env env fs = (inr self, fs)
       /\ load_credentials self fs = (inr (JObj members), fs)
       /\ lookup_member "threads_token" members = Some token
       /\ truthy token = true
       /\ headers = bearer token /\ cache = ∅ /\ log = [])
  /\ (unset (env !! "CREDENTIALS_PATH") = true ->
      new_client env fs
      = (inl (ValueError "CREDENTIALS_PATH environment variable not set"), []))
  /\ (forall self token,
        unset (env !! "CREDENTIALS_PATH") = false ->
        from_env env fs = (inr self, fs) ->
        fst (get_single_credential self "threads_token" fs) = inr token ->
        truthy token = false ->
        fst (new_client env fs) = inl (ValueError "Unable to obtain access token")).
Proof.
  split; [| split].
  - intros headers cache log. unfold new_client.
    destruct (unset (env !! "CREDENTIALS_PATH")); [discriminate |].
    pose proof (f_equal snd (from_env_cases env fs)) as Hfs. cbn [snd] in Hfs.
    destruct (from_env env fs) as [[e | self] fs1]; [discriminate |].
    simpl in Hfs. subst fs1.
    destruct (get_single_credential self "threads_token" fs) as [[e | token] fs2] eqn:Hget;
      [discriminate |].
    destruct (truthy token) eqn:Htoken; [| discriminate].
    simpl. intros [= <- <- <-].
    destruct (get_single_credential_value self "threads_token" fs fs2 token Hget)
      as (members & Hload & Hmember).
    exists self, members, token. auto 10.
  - intros Hunset. unfold new_client. rewrite Hunset. reflexivity.
  - intros self token Hset Hbuilt Hget Hfalsy. unfold new_client. rewrite Hset, Hbuilt.
    destruct (get_single_credential self "threads_token" fs) as [r fs2].
    simpl in Hget. subst r. rewrite Hfalsy. reflexivity.
Qed.

(** X17: [verify_threads_token] answers [True] exactly when the sealed
    file unseals to an object with a truthy [threads_token] and the endpoint
    answers 200 to the bearer of that token; in every other case, the
    failures of the store and of the request among them, it answers
    [False]. *)
Theorem verify_threads_token_true_iff (self : manager) (fs : files) :
  verify_threads_token self fs = true
  <-> exists members token response,
        load_credentials self fs = (inr (JObj members), fs)
        /\ lookup_member "threads_token" members = Some token
        /\ truthy token = true
        /\ get_me (bearer token) = inr response
        /\ status_code response = 200.
Proof.
  unfold verify_threads_token. split.
  - destruct (get_single_credential self "threads_token" fs) as [[e | token] fs'] eqn:Hget;
      [discriminate |].
    destruct (get_single_credential_value self "threads_token" fs fs' token Hget)
      as (members & Hload & Hmember).
    destruct (truthy token) eqn:Htoken; [| discriminate]. simpl.
    destruct (get_me (bearer token)) as [e | response] eqn:Hme; [discriminate |].
    intros Hstatus. apply Z.eqb_eq in Hstatus.
    exists members, token, response. auto 10.
  - intros (members & token & response & Hload & Hmember & Htoken & Hme & Hstatus).
    rewrite get_single_credential_cases, Hload. simpl.
    rewrite Hmember, bool_decide_true, Htoken by eauto. simpl.
    rewrite Hme. apply Z.eqb_eq. exact Hstatus.
Qed.

End Building.

(** ** The construction, run on the models *)

Import LibraryModel Samples PlatformModel.

(** The deployment builds its manager from the key file. *)
Lemma from_env_builds_when_key_is_there_witness :
  fst (from_env deployment installed)
  = inr {| fernet := key1;
           credentials_path := "/srv/threads/config/credentials.enc" |}.
Proof.
  apply (proj1 (proj2 (from_env_builds_when_key_is_there deployment installed))).
  exists "secure/keys/crypto.key", "config/credentials.enc", key1.
  repeat split; try discriminate; vm_compute; reflexivity.
Defined.

(** The sample credentials, sealed over the deployment and read again. *)
Lemma sealed_by_one_run_read_by_the_next_witness :
  fst (get_single_credential
         {| fernet := key1; credentials_path := "/srv/threads/config/credentials.enc" |}
         "spreadsheet_id"
         (snd (encrypt_credentials
                 {| fernet := key1;
                    credentials_path := "/srv/threads/config/credentials.enc" |}
                 secrets drawn installed)))
  = inr (JStr "sheet-456").
Proof.
  refine (proj2 (sealed_by_one_run_read_by_the_next deployment installed
                   {| fernet := key1;
                      credentials_path := "/srv/threads/config/credentials.enc" |}
                   [("threads_token", JStr "token-123");
                    ("spreadsheet_id", JStr "sheet-456");
                    ("google_credentials",
                     JObj [("type", JStr "service_account");
                           ("project_id", JStr "analytics")])]
                   drawn "spreadsheet_id" (JStr "sheet-456") _ _ _ _ _ _));
    try (vm_compute; reflexivity).
  vm_compute. discriminate.
Defined.

(** The client of the deployment. *)
Lemma new_client_needs_a_token_witness :
  exists self members token,
    from_env deployment installed = (inr self, installed)
    /\ load_credentials self installed = (inr (JObj members), installed)
    /\ lookup_member "threads_token" members = Some token
    /\ truthy token = true
    /\ [("Authorization", "Bearer token-123"); ("Content-Type", "application/json")]
       = bearer token
    /\ (∅ : gmap string cache_entry) = ∅ /\ (@nil string) = [].
Proof.
  apply (proj1 (new_client_needs_a_token deployment installed)).
  vm_compute. reflexivity.
Defined.

(** The token of the deployment is verified; without a sealed file nothing
    is. *)
Lemma verify_threads_token_true_iff_witness :
  verify_threads_token
    {| fernet := key1; credentials_path := "/srv/threads/config/credentials.enc" |}
    installed = true.
Proof.
  apply (proj2 (verify_threads_token_true_iff
                  {| fernet := key1;
                     credentials_path := "/srv/threads/config/credentials.enc" |}
                  installed)).
  eexists _, (JStr "token-123"), _.
  split; [vm_compute; reflexivity |].
  repeat split; vm_compute; reflexivity.
Defined.

End ConstructionProperties.

